(** * The Postgres statement builder of vodka (builders package)

    A shallow embedding of the query builder that follows the repository
    facade in [src/repositories/postgres.go]: the fluent configuration
    methods, the four statement renderers, the predicate renderer and the
    value formatting helper, together with the properties the specification
    states about them. *)

From Stdlib Require Import ZArith Lia List Ascii String Bool.
From Stdlib Require Import DecimalString DecimalFacts DecimalN DecimalZ.
From Stdlib.Floats Require Import SpecFloat.
From stdpp Require Import base gmap strings.

Import ListNotations.
Local Open Scope Z_scope.
Local Open Scope string_scope.

#[local] Arguments String.append !s1 s2 : simpl nomatch.

(** ** Strings of the Go standard library *)

Module GoStrings.

(** [strings.Join(elems, sep)]. *)
Fixpoint Join (elems : list string) (sep : string) : string :=
  match elems with
  | [] => ""
  | [e] => e
  | e :: rest => e ++ sep ++ Join rest sep
  end.

(** [strings.Index(s, substr)]: the position of the first occurrence of
    [substr] in [s], or [-1]. *)
Definition Index (s substr : string) : Z :=
  match String.index 0 substr s with
  | Some n => Z.of_nat n
  | None => -1
  end.

(** [strings.Contains(s, substr)]. *)
Definition Contains (s substr : string) : bool :=
  negb (Index s substr =? -1)%Z.

(** One byte of [strings.ToUpper] on ASCII text. *)
Definition upper_ascii (c : ascii) : ascii :=
  let n := nat_of_ascii c in
  if ((97 <=? n) && (n <=? 122))%nat then ascii_of_nat (n - 32) else c.

(** [strings.ToUpper(s)], for ASCII text (join kinds are ASCII keywords). *)
Fixpoint ToUpper (s : string) : string :=
  match s with
  | EmptyString => EmptyString
  | String c rest => String (upper_ascii c) (ToUpper rest)
  end.

(** The text is ASCII: every byte is below [0x80]. This is the input on
    which [ToUpper] above is Go's function; for any other text Go maps each
    rune through [unicode.ToUpper], which is not modelled, and no statement
    below speaks of the upper-casing of such a text. *)
Fixpoint is_ascii (s : string) : bool :=
  match s with
  | EmptyString => true
  | String c rest => (nat_of_ascii c <? 128)%nat && is_ascii rest
  end.

(** A byte [a]..[z] occurs in the text. *)
Fixpoint has_lower (s : string) : bool :=
  match s with
  | EmptyString => false
  | String c rest =>
      ((97 <=? nat_of_ascii c) && (nat_of_ascii c <=? 122))%nat || has_lower rest
  end.

(** [occurs c s]: the byte [c] occurs in [s]. *)
Fixpoint occurs (c : ascii) (s : string) : bool :=
  match s with
  | EmptyString => false
  | String a rest => Ascii.eqb c a || occurs c rest
  end.

(** The text consists of decimal digits only. *)
Definition is_digit (c : ascii) : bool :=
  let n := nat_of_ascii c in ((48 <=? n) && (n <=? 57))%nat.

Fixpoint all_digits (s : string) : bool :=
  match s with
  | EmptyString => true
  | String a rest => is_digit a && all_digits rest
  end.

End GoStrings.

(** ** Number formatting of [strconv] *)

Module Strconv.

(** An unsigned decimal numeral. *)
Definition FormatUint (n : Z) : string :=
  NilZero.string_of_uint (N.to_uint (Z.to_N n)).

(** [strconv.FormatInt(n, 10)] and [strconv.Itoa(n)]: the decimal numeral of
    [n], with a leading minus sign when [n] is negative. *)
Definition FormatInt (n : Z) : string :=
  if (n <? 0)%Z then "-" ++ FormatUint (Z.abs n) else FormatUint n.

Definition Itoa (n : Z) : string := FormatInt n.

(** [digits_fixed k z]: the last [k] decimal digits of [z], zero padded. *)
Fixpoint digits_fixed (k : nat) (z : Z) : string :=
  match k with
  | O => ""
  | S k' => digits_fixed k' (z / 10) ++
            String (ascii_of_nat (48 + Z.to_nat (z mod 10))) ""
  end.

(** A [float64] is given by its decoded IEEE 754 value: a signed zero, an
    infinity, a NaN, or [(-1)^s * m * 2^e]. *)
Definition float64 := spec_float.

(** [round_half_even num den]: the integer nearest to [num / den], ties to
    the even one ([den > 0]). *)
Definition round_half_even (num den : Z) : Z :=
  let q := num / den in
  let r := num mod den in
  if (2 * r <? den)%Z then q
  else if (den <? 2 * r)%Z then q + 1
  else if Z.even q then q else q + 1.

(** The magnitude [m * 2^e] scaled by [10^prec] and rounded to an integer. *)
Definition scaled (prec : nat) (m : positive) (e : Z) : Z :=
  let p := 10 ^ Z.of_nat prec in
  if (0 <=? e)%Z then Z.pos m * 2 ^ e * p
  else round_half_even (Z.pos m * p) (2 ^ (- e)).

Definition sign_text (neg : bool) : string := if neg then "-" else "".

(** The fixed notation of the scaled magnitude [q]: integer part, and
    [prec] fractional digits after a point when [prec] is positive. *)
Definition fixed_text (prec : nat) (q : Z) : string :=
  let p := 10 ^ Z.of_nat prec in
  FormatUint (q / p) ++
  match prec with
  | O => ""
  | _ => "." ++ digits_fixed prec (q mod p)
  end.

(** [strconv.FormatFloat(f, 'f', prec, 64)]: fixed notation with [prec]
    digits after the decimal point, correctly rounded. *)
Definition FormatFloat_f (prec : nat) (f : float64) : string :=
  match f with
  | S754_nan => "NaN"
  | S754_infinity neg => if neg then "-Inf" else "+Inf"
  | S754_zero neg => sign_text neg ++ fixed_text prec 0
  | S754_finite neg m e => sign_text neg ++ fixed_text prec (scaled prec m e)
  end.

(** *** The shortest notation ([strconv.FormatFloat(f, 'g', -1, 64)])

    The digits are the shortest decimal numeral that reads back as the same
    [float64]; among those of that length, the one nearest to the value. *)

(** A non-negative rational [num / den] compared with [c * 10^j]. *)
Definition dec_le (c j num den : Z) : bool :=
  if (0 <=? j)%Z then (c * 10 ^ j * den <=? num)%Z
  else (c * den <=? num * 10 ^ (- j))%Z.

Definition dec_lt (c j num den : Z) : bool :=
  if (0 <=? j)%Z then (c * 10 ^ j * den <? num)%Z
  else (c * den <? num * 10 ^ (- j))%Z.

(** The largest [k], searched downwards from [k], with [10^k <= num/den]. *)
Fixpoint decimal_exponent (fuel : nat) (k num den : Z) : Z :=
  match fuel with
  | O => k
  | S fuel' =>
      if dec_le 1 k num den then k
      else decimal_exponent fuel' (k - 1) num den
  end.

(** Trailing zeros of the digits [c * 10^j] move into the exponent. *)
Fixpoint strip_zeros (fuel : nat) (c j : Z) : Z * Z :=
  match fuel with
  | O => (c, j)
  | S fuel' =>
      if ((c mod 10 =? 0) && (0 <? c))%Z then strip_zeros fuel' (c / 10) (j + 1)
      else (c, j)
  end.

(** The half-way points to the neighbouring floats, in units of
    [2^(e-2)]: the value is [4m], the upper bound [4m+2], the lower bound
    [4m-2], or [4m-1] just above a power of two where the spacing halves. *)
Definition lower_units (m e : Z) : Z :=
  if ((m =? 2 ^ 52) && (-1074 <? e))%Z then 4 * m - 1 else 4 * m - 2.

Definition upper_units (m : Z) : Z := 4 * m + 2.

(** The mantissa and exponent as [float64] stores them: the mantissa has 53
    bits, or the exponent is the least one, [-1074]. *)
Definition canonical (m : positive) (e : Z) : Z * Z :=
  let shift := Z.max 0 (Z.min (52 - Z.log2 (Z.pos m)) (e + 1074)) in
  (Z.pos m * 2 ^ shift, e - shift).

(** [x] units of [2^(e-2)] as a fraction. *)
Definition units_num (e x : Z) : Z := if (2 <=? e)%Z then x * 2 ^ (e - 2) else x.
Definition units_den (e : Z) : Z := if (2 <=? e)%Z then 1 else 2 ^ (2 - e).

(** The [n]-digit candidate for [m * 2^e], when one lies between the bounds:
    digits [c] and exponent [j], standing for [c * 10^j]. *)
Definition candidate (m e k : Z) (n : Z) : option (Z * Z) :=
  let den := units_den e in
  let v := units_num e (4 * m) in
  let lo := units_num e (lower_units m e) in
  let hi := units_num e (upper_units m) in
  let incl := Z.even m in
  let j := k - n + 1 in
  let d := if (0 <=? j)%Z then v / (den * 10 ^ j) else (v * 10 ^ (- j)) / den in
  let okdown := if incl then negb (dec_lt d j lo den) else negb (dec_le d j lo den) in
  let okup := if incl then dec_le (d + 1) j hi den else dec_lt (d + 1) j hi den in
  (* twice the value against the two candidates' sum *)
  let up_nearer := dec_lt (2 * d + 1) j (2 * v) den in
  let tie := negb up_nearer && dec_le (2 * d + 1) j (2 * v) den in
  let prefer_up := up_nearer || (tie && Z.odd d) in
  if okdown && okup then Some (if prefer_up then d + 1 else d, j)
  else if okdown then Some (d, j)
  else if okup then Some (d + 1, j)
  else None.

Fixpoint shortest_from (fuel : nat) (m e k n : Z) : Z * Z :=
  match fuel with
  | O => (m, 0)
  | S fuel' =>
      match candidate m e k n with
      | Some cj => cj
      | None => shortest_from fuel' m e k (n + 1)
      end
  end.

(** The digits and the position of the decimal point (Go's [digs.d] and
    [digs.dp]) of the shortest numeral. *)
Definition shortest_digits (m0 : positive) (e0 : Z) : string * Z :=
  let '(m, e) := canonical m0 e0 in
  let k := decimal_exponent 800 400 (units_num e (4 * m)) (units_den e) in
  let '(c, j) := shortest_from 20 m e k 1 in
  let '(c', j') := strip_zeros 25 c j in
  let ds := FormatUint c' in
  (ds, Z.of_nat (String.length ds) + j').

Fixpoint zeros (n : nat) : string :=
  match n with O => "" | S n' => String "0" (zeros n') end.

(** [%e] with all the digits: [d.ddde+XX]. *)
Definition fmtE (ds : string) (dp : Z) : string :=
  let exp := dp - 1 in
  let mant :=
    match ds with
    | String c EmptyString => String c ""
    | String c rest => String c ("." ++ rest)
    | EmptyString => "0"
    end in
  let a := Z.abs exp in
  mant ++ "e" ++ (if (exp <? 0)%Z then "-" else "+") ++
  (if (a <? 10)%Z then "0" ++ FormatUint a else FormatUint a).

(** [%f] with all the digits. *)
Definition fmtF (ds : string) (dp : Z) : string :=
  let nd := String.length ds in
  if (0 <? dp)%Z then
    let ip := Z.to_nat dp in
    String.substring 0 ip (ds ++ zeros (ip - nd)) ++
    (if (ip <? nd)%nat then "." ++ String.substring ip (nd - ip) ds else "")
  else "0." ++ zeros (Z.to_nat (- dp)) ++ ds.

Definition FormatFloat_g (f : float64) : string :=
  match f with
  | S754_nan => "NaN"
  | S754_infinity neg => if neg then "-Inf" else "+Inf"
  | S754_zero neg => sign_text neg ++ "0"
  | S754_finite neg m e =>
      let '(ds, dp) := shortest_digits m e in
      let exp := dp - 1 in
      sign_text neg ++
      (if ((exp <? -4) || (6 <=? exp))%Z then fmtE ds dp else fmtF ds dp)
  end.

End Strconv.

(** ** Dynamic values and their generic text ([fmt]) *)

Module Fmt.
Import GoStrings Strconv.

(** A value held in an [interface{}]: the dynamic types the builder tells
    apart, some further ones, and [VOther] for a value of any other dynamic
    type, known by the text [fmt] prints for it. *)
Inductive value : Type :=
  | VFloat64 (f : float64)
  | VInt64 (n : Z)
  | VInt (n : Z)
  | VString (s : string)
  | VBool (b : bool)
  | VNil
  | VInt64s (l : list Z)
  | VStrings (l : list string)
  | VInts (l : list Z)
  | VFloat64s (l : list float64)
  | VOther (text : string).

(** A slice under [%v]: the elements between brackets, separated by spaces. *)
Definition brackets (elems : list string) : string :=
  "[" ++ Join elems " " ++ "]".

(** [fmt.Sprint(v)], which is also [fmt.Sprintf("%v", v)]. *)
Definition Sprint (v : value) : string :=
  match v with
  | VFloat64 f => FormatFloat_g f
  | VInt64 n => FormatInt n
  | VInt n => FormatInt n
  | VString s => s
  | VBool b => if b then "true" else "false"
  | VNil => "<nil>"
  | VInt64s l => brackets (map FormatInt l)
  | VStrings l => brackets l
  | VInts l => brackets (map FormatInt l)
  | VFloat64s l => brackets (map FormatFloat_g l)
  | VOther text => text
  end.

(** [fmt.Sprint("'", v, "'")]: no space is added next to a string operand. *)
Definition Sprint_quoted (v : value) : string := "'" ++ Sprint v ++ "'".

End Fmt.

(** ** The builder

    Names are those of the source; an underscore is added where the name is
    taken in Rocq or by another definition here ([where_], [parts_],
    [Type_], [Set_], [Join_]). *)

Module Builder.
Import Strconv Fmt.

(** A [map[string]interface{}], as the entries a [range] loop visits, in the
    order of that visit (keys are distinct). *)
Definition gomap := list (string * value).

(** The dynamic value handed to [Values] and [Set]. *)
Inductive data : Type :=
  | DataNil
  | DataMap (m : gomap)
  | DataValue (v : value).

(** The type assertion [d.(map[string]interface{})]. *)
Definition asMap (d : data) : option gomap :=
  match d with
  | DataMap m => Some m
  | _ => None
  end.

(** Modelled from the spec: the statement keywords [queryTypeSelect],
    [queryTypeInsert], [queryTypeUpdate], [queryTypeDelete] and the default
    alias [tablePrefix] are constants of the builders package declared
    outside [src/]; the spec renders statements as [SELECT ...],
    [INSERT INTO ...], [UPDATE ...], [DELETE FROM ...] and names [u] as the
    default alias. *)
Definition queryTypeSelect : string := "SELECT".
Definition queryTypeInsert : string := "INSERT".
Definition queryTypeUpdate : string := "UPDATE".
Definition queryTypeDelete : string := "DELETE".
Definition tablePrefix : string := "u".

(** Modelled from the spec: the [Join] and [OrderParam] structs are declared
    outside [src/]; these are the fields the renderers read. *)
Record Join : Type := mkJoin {
  Source : string;
  Key : string;
  TargetKey : string;
  Type_ : string;
  Fields : list string
}.

Record OrderParam : Type := mkOrderParam {
  OrderBy : string;
  Asc : bool;
  Desc : bool
}.

Record parts : Type := mkParts {
  table : string;
  fields : list string;
  where_ : gomap;
  join : list Join;
  order : list OrderParam;
  limit : Z;
  offset : Z;
  insertData : data;
  returnID : string
}.

Record postgres : Type := mkPostgres {
  queryType : string;
  parts_ : parts;
  sources : gmap string string
}.

(** Modelled from the spec: the constructor behind [adapter.Builder()] is
    outside [src/]; a new builder is the zero value [postgres{}], on which
    no statement kind is set and every part is empty. *)
Definition zero_parts : parts :=
  mkParts "" [] [] [] [] 0 0 DataNil "".

Definition fresh_builder : postgres := mkPostgres "" zero_parts ∅.

(** *** Field assignments *)

Definition set_queryType (q : string) (sql : postgres) : postgres :=
  mkPostgres q (parts_ sql) (sources sql).

Definition set_parts (p : parts) (sql : postgres) : postgres :=
  mkPostgres (queryType sql) p (sources sql).

Definition set_table (t : string) (p : parts) : parts :=
  mkParts t (fields p) (where_ p) (join p) (order p) (limit p) (offset p)
          (insertData p) (returnID p).

Definition set_fields (f : list string) (p : parts) : parts :=
  mkParts (table p) f (where_ p) (join p) (order p) (limit p) (offset p)
          (insertData p) (returnID p).

Definition set_where (w : gomap) (p : parts) : parts :=
  mkParts (table p) (fields p) w (join p) (order p) (limit p) (offset p)
          (insertData p) (returnID p).

Definition set_join (j : list Join) (p : parts) : parts :=
  mkParts (table p) (fields p) (where_ p) j (order p) (limit p) (offset p)
          (insertData p) (returnID p).

Definition set_order (o : list OrderParam) (p : parts) : parts :=
  mkParts (table p) (fields p) (where_ p) (join p) o (limit p) (offset p)
          (insertData p) (returnID p).

Definition set_limit (l o : Z) (p : parts) : parts :=
  mkParts (table p) (fields p) (where_ p) (join p) (order p) l o
          (insertData p) (returnID p).

Definition set_insertData (d : data) (p : parts) : parts :=
  mkParts (table p) (fields p) (where_ p) (join p) (order p) (limit p)
          (offset p) d (returnID p).

Definition set_returnID (id : string) (p : parts) : parts :=
  mkParts (table p) (fields p) (where_ p) (join p) (order p) (limit p)
          (offset p) (insertData p) id.

(** *** The alias registry *)

(** [addToSources]: a nil map is made first; then [sources[table] = id]. *)
Definition addToSources (tbl id : string) (sql : postgres) : postgres :=
  mkPostgres (queryType sql) (parts_ sql) (<[tbl := id]> (sources sql)).

(** [getAliasBySource]: a missing key reads as the empty string, and then
    the source itself is the answer. *)
Definition getAliasBySource (sql : postgres) (source : string) : string :=
  let a := default "" (sources sql !! source) in
  if String.eqb a "" then source else a.

(** *** The fluent configuration methods (pointer receivers) *)

Definition Select (fs : list string) (sql : postgres) : postgres :=
  let sql := set_queryType queryTypeSelect sql in
  set_parts (set_fields (fields (parts_ sql) ++ fs) (parts_ sql)) sql.

Definition Insert (tbl : string) (sql : postgres) : postgres :=
  let sql := set_queryType queryTypeInsert sql in
  set_parts (set_table tbl (parts_ sql)) sql.

Definition Update (tbl : string) (sql : postgres) : postgres :=
  let sql := set_queryType queryTypeUpdate sql in
  let sql := set_parts (set_table tbl (parts_ sql)) sql in
  addToSources tbl tablePrefix sql.

Definition Delete (sql : postgres) : postgres :=
  set_queryType queryTypeDelete sql.

Definition Values (d : data) (sql : postgres) : postgres :=
  set_parts (set_insertData d (parts_ sql)) sql.

Definition Set_ (d : data) (sql : postgres) : postgres := Values d sql.

Definition From (tbl : string) (sql : postgres) : postgres :=
  let sql := set_parts (set_table tbl (parts_ sql)) sql in
  addToSources tbl tablePrefix sql.

Definition ReturnID (id : string) (sql : postgres) : postgres :=
  set_parts (set_returnID id (parts_ sql)) sql.

Definition Where (w : gomap) (sql : postgres) : postgres :=
  set_parts (set_where w (parts_ sql)) sql.

Definition Join_ (jp : Join) (sql : postgres) : postgres :=
  let sql := set_parts (set_join (join (parts_ sql) ++ [jp]) (parts_ sql)) sql in
  addToSources (Source jp) (Source jp) sql.

Definition Order (o : OrderParam) (sql : postgres) : postgres :=
  set_parts (set_order (order (parts_ sql) ++ [o]) (parts_ sql)) sql.

Definition Limit (l o : Z) (sql : postgres) : postgres :=
  set_parts (set_limit l o (parts_ sql)) sql.

(** *** Value formatting *)

(** [toString]: the literal of a payload or predicate value. *)
Definition toString (v : value) : string :=
  match v with
  | VFloat64 f => FormatFloat_f 8 f
  | VInt64 n => FormatInt n
  | VInt n => Itoa n
  | _ => Sprint_quoted v
  end.

(** [formatValue]: a helper of the file that no renderer calls. *)
Definition formatValue (v : value) : string :=
  match v with
  | VString s => "= '" ++ s ++ "'"
  | VInt64s l => " IN (" ++ GoStrings.Join (map (fun n => Sprint (VInt64 n)) l) "," ++ ")"
  | VFloat64s l => " IN (" ++ GoStrings.Join (map (fun n => Sprint (VFloat64 n)) l) "," ++ ")"
  | VStrings l => " IN (" ++ GoStrings.Join (map (fun n => "'" ++ n ++ "'") l) "," ++ ")"
  | _ => "=" ++ Sprint v
  end.

(** *** Clause renderers (pointer receivers)

    A renderer that only reads the builder is a function of it; the one that
    assigns to it, [buildFields], also returns the builder it leaves. *)

Definition buildTable (sql : postgres) (alias : bool) : string :=
  if negb alias then " " ++ table (parts_ sql)
  else " " ++ table (parts_ sql) ++ " as " ++
       getAliasBySource sql (table (parts_ sql)).

Definition buildFrom (sql : postgres) (alias : bool) : string :=
  " FROM " ++ buildTable sql alias.

Definition buildFields (sql : postgres) : string * postgres :=
  let sql :=
    if (List.length (fields (parts_ sql)) =? 0)%nat
    then set_parts (set_fields ["*"] (parts_ sql)) sql
    else sql in
  let own :=
    map (fun f => getAliasBySource sql (table (parts_ sql)) ++ "." ++ f)
        (fields (parts_ sql)) in
  let joined :=
    flat_map (fun j => map (fun f => Source j ++ "." ++ f) (Fields j))
             (join (parts_ sql)) in
  (" " ++ GoStrings.Join (own ++ joined) ", ", sql).

Definition joinClause (sql : postgres) (j : Join) : string :=
  (" " ++ GoStrings.ToUpper (Type_ j) ++ " JOIN " ++ Source j ++ " AS " ++ Source j ++ " ON ")
  ++ (Source j ++ "." ++ Key j ++ " = " ++
      getAliasBySource sql (table (parts_ sql)) ++ "." ++ TargetKey j).

Definition buildJoin (sql : postgres) : string :=
  if (List.length (join (parts_ sql)) =? 0)%nat then ""
  else fold_left (fun acc j => acc ++ joinClause sql j) (join (parts_ sql)) "".

(** The comparison sign put after a predicate key: none when the key
    carries its own. *)
Definition whereSign (key : string) : string :=
  if ((GoStrings.Index key "=" =? -1) && (GoStrings.Index key ">" =? -1) && (GoStrings.Index key "<" =? -1))%Z
  then "=" else "".

(** One round of the loop of [buildWhere]: the term of one entry. *)
Definition whereTerm (sql : postgres) (key : string) (v : value) : string :=
  match v with
  | VInt64s sl =>
      getAliasBySource sql (table (parts_ sql)) ++ "." ++ key ++ " IN (" ++
      GoStrings.Join (map (fun st => FormatInt st) sl) "," ++ ")"
  | VStrings sl =>
      getAliasBySource sql (table (parts_ sql)) ++ "." ++ key ++ " IN (" ++
      GoStrings.Join (map (fun st => "'" ++ st ++ "'") sl) "," ++ ")"
  | _ =>
      let str := toString v in
      let sign := whereSign key in
      getAliasBySource sql (table (parts_ sql)) ++ "." ++ key ++ sign ++ str
  end.

Definition whereTerms (sql : postgres) : list string :=
  map (fun kv => whereTerm sql (fst kv) (snd kv)) (where_ (parts_ sql)).

Definition buildWhere (sql : postgres) : string :=
  if (List.length (where_ (parts_ sql)) =? 0)%nat then ""
  else " WHERE " ++ GoStrings.Join (whereTerms sql) " AND ".

(** The terms of the [SET] clause: one per entry of a payload that is a
    map, none for any other payload. *)
Definition setterTerms (sql : postgres) : list string :=
  match asMap (insertData (parts_ sql)) with
  | Some m => map (fun kv => "" ++ fst kv ++ " = " ++ toString (snd kv)) m
  | None => []
  end.

Definition buildSetter (sql : postgres) : string :=
  if (List.length (where_ (parts_ sql)) =? 0)%nat then ""
  else " SET " ++ GoStrings.Join (setterTerms sql) ", ".

Definition buildLimit (sql : postgres) : string :=
  if negb (limit (parts_ sql) =? 0)%Z
  then " LIMIT " ++ Itoa (limit (parts_ sql)) ++
       " OFFSET " ++ Itoa (offset (parts_ sql))
  else "".

Definition orderItem (sql : postgres) (o : OrderParam) : string :=
  let item :=
    if negb (GoStrings.Contains (OrderBy o) ".")
    then getAliasBySource sql (table (parts_ sql)) ++ "." ++ OrderBy o
    else OrderBy o in
  let item := if Asc o then item ++ " ASC" else item in
  if Desc o then item ++ " DESC" else item.

Definition buildOrderBy (sql : postgres) : string :=
  if (0 <? List.length (order (parts_ sql)))%nat
  then " ORDER BY " ++ GoStrings.Join (map (orderItem sql) (order (parts_ sql))) ","
  else "".

Definition buildValues (sql : postgres) : string :=
  let entries :=
    match asMap (insertData (parts_ sql)) with
    | Some m => m
    | None => []
    end in
  let keys := map (fun kv => "" ++ fst kv ++ "") entries in
  let values := map (fun kv => toString (snd kv)) entries in
  "(" ++ GoStrings.Join keys "," ++ ") VALUES (" ++ GoStrings.Join values "," ++ ")".

(** *** Statement renderers *)

Definition buildUpdate (sql : postgres) : string :=
  queryTypeUpdate ++ buildTable sql true ++ buildSetter sql ++ buildWhere sql.

Definition buildInsert (sql : postgres) : string :=
  let SQL := queryTypeInsert ++ " INTO " ++ table (parts_ sql) ++ buildValues sql in
  if negb (String.eqb (returnID (parts_ sql)) "")
  then SQL ++ " RETURNING " ++ returnID (parts_ sql)
  else SQL.

Definition buildDelete (sql : postgres) : string :=
  queryTypeDelete ++ buildFrom sql true ++ buildWhere sql.

Definition buildSelect (sql : postgres) : string * postgres :=
  let '(fs, sql) := buildFields sql in
  (queryTypeSelect ++ fs ++ buildFrom sql true ++ buildJoin sql ++
   buildWhere sql ++ buildOrderBy sql ++ buildLimit sql, sql).

(** The body of [Build], run on the receiver [sql]: the text, and the
    receiver as the body leaves it. *)
Definition render (sql : postgres) : string * postgres :=
  if String.eqb (queryType sql) queryTypeSelect then buildSelect sql
  else if String.eqb (queryType sql) queryTypeInsert then (buildInsert sql, sql)
  else if String.eqb (queryType sql) queryTypeDelete then (buildDelete sql, sql)
  else if String.eqb (queryType sql) queryTypeUpdate then (buildUpdate sql, sql)
  else ("", sql).

(** [Build] has a value receiver: the body runs on a copy of the caller's
    builder, and the caller keeps its own. The call returns the text and the
    builder the caller holds afterwards. *)
Definition call_Build (caller : postgres) : string * postgres :=
  let receiver := caller in
  (fst (render receiver), caller).

Definition Build (sql : postgres) : string := fst (call_Build sql).

(** *** The repository's caller *)

(** The statement [Postgres.Update] of the repository builds for the table
    [source], a query map [q] and a payload. *)
Definition repository_Update_SQL (source : string) (q payload : gomap) : string :=
  Build (Limit 1 0 (Where q (Set_ (DataMap payload) (Update source fresh_builder)))).

End Builder.

(** ** Sequences of configuration calls *)

Module Calls.
Import Builder.

(** One call of a configuration method of the builder. *)
Inductive call : Type :=
  | CSelect (fs : list string)
  | CInsert (tbl : string)
  | CUpdate (tbl : string)
  | CDelete
  | CValues (d : data)
  | CSet (d : data)
  | CFrom (tbl : string)
  | CReturnID (id : string)
  | CWhere (w : gomap)
  | CJoin (jp : Join)
  | COrder (o : OrderParam)
  | CLimit (l o : Z).

Definition apply_call (c : call) (sql : postgres) : postgres :=
  match c with
  | CSelect fs => Select fs sql
  | CInsert tbl => Insert tbl sql
  | CUpdate tbl => Update tbl sql
  | CDelete => Delete sql
  | CValues d => Values d sql
  | CSet d => Set_ d sql
  | CFrom tbl => From tbl sql
  | CReturnID id => ReturnID id sql
  | CWhere w => Where w sql
  | CJoin jp => Join_ jp sql
  | COrder o => Order o sql
  | CLimit l o => Limit l o sql
  end.

(** The calls of a chain, first call first, applied to a builder. *)
Definition run (cs : list call) (sql : postgres) : postgres :=
  fold_left (fun acc c => apply_call c acc) cs sql.

(** The call is one of [Select], [Insert], [Update], [Delete]. *)
Definition sets_kind (c : call) : bool :=
  match c with
  | CSelect _ | CInsert _ | CUpdate _ | CDelete => true
  | _ => false
  end.

(** The chain [Select(["id"]).From("users").Where({"id": 5}).Limit(10, 0)]
    on a fresh builder. *)
Definition select_users_by_id : postgres :=
  run [CSelect ["id"]; CFrom "users"; CWhere [("id", Fmt.VInt 5)]; CLimit 10 0]
      fresh_builder.

(** An INSERT on which [Where] was called too. *)
Definition insert_with_predicate : postgres :=
  run [CInsert "t"; CValues (DataMap [("a", Fmt.VInt 1)]);
       CWhere [("id", Fmt.VInt 1)]] fresh_builder.

(** A DELETE whose predicate key carries its operator and whose value is a
    sequence of native integers. *)
Definition delete_by_int_sequence : postgres :=
  run [CDelete; CFrom "t"; CWhere [("n>", Fmt.VInts [1; 2])]] fresh_builder.

End Calls.

(** ** Vocabulary of the specification *)

Module Terms.
Import Strconv Fmt Builder.

(** The key carries a comparison operator: one of [=], [>], [<] occurs. *)
Definition carries_operator (key : string) : bool :=
  GoStrings.occurs "=" key || GoStrings.occurs ">" key || GoStrings.occurs "<" key.

(** The value is a sequence of 64-bit integers or of strings. *)
Definition in_list_value (v : value) : bool :=
  match v with
  | VInt64s _ | VStrings _ => true
  | _ => false
  end.

(** The value is a number [toString] prints bare. *)
Definition bare_number (v : value) : bool :=
  match v with
  | VFloat64 _ | VInt64 _ | VInt _ => true
  | _ => false
  end.

(** The float is a number: a zero or a finite non-zero value. *)
Definition is_number (f : float64) : bool :=
  match f with
  | S754_zero _ | S754_finite _ _ _ => true
  | _ => false
  end.

(** A string between single quotes. *)
Definition quoted (s : string) : string := "'" ++ s ++ "'".

(** [s] is a numeral in fixed notation with [prec] fractional digits: an
    optional minus sign, integer digits, a point, [prec] digits. *)
Definition fixed_notation (prec : nat) (s : string) : Prop :=
  exists sg ip fp,
    s = sg ++ ip ++ "." ++ fp /\
    (sg = "" \/ sg = "-") /\
    ip <> "" /\ GoStrings.all_digits ip = true /\
    GoStrings.all_digits fp = true /\ String.length fp = prec.

(** [s] is a plain decimal numeral of [n]: the digits of [|n|], after a
    minus sign when [n] is negative. *)
Definition decimal_numeral (n : Z) (s : string) : Prop :=
  exists ds,
    s = (if (n <? 0)%Z then "-" else "") ++ ds /\
    ds <> "" /\ GoStrings.all_digits ds = true /\
    NilZero.uint_of_string ds = Some (N.to_uint (Z.to_N (Z.abs n))).

(** The capital letter L, the first byte of the keyword LIMIT, does not
    occur in a text, in the texts a value carries, in the keys and values of
    a map, in a payload, in what the caller supplied to an UPDATE. *)
Definition no_L (s : string) : bool := negb (GoStrings.occurs "L" s).

Definition value_no_L (v : value) : bool :=
  match v with
  | VString s | VOther s => no_L s
  | VStrings l => forallb no_L l
  | _ => true
  end.

Definition map_no_L (m : gomap) : bool :=
  forallb (fun kv => no_L (fst kv) && value_no_L (snd kv)) m.

Definition data_no_L (d : data) : bool :=
  match d with
  | DataMap m => map_no_L m
  | _ => true
  end.

Definition update_input_no_L (sql : postgres) : bool :=
  no_L (table (parts_ sql)) &&
  no_L (getAliasBySource sql (table (parts_ sql))) &&
  map_no_L (where_ (parts_ sql)) &&
  data_no_L (insertData (parts_ sql)).

(** What a statement's renderer puts before and after the WHERE clause. *)
Definition before_where (sql : postgres) : string :=
  if String.eqb (queryType sql) queryTypeSelect then
    let sql' := snd (buildFields sql) in
    queryTypeSelect ++ fst (buildFields sql) ++ buildFrom sql' true ++ buildJoin sql'
  else if String.eqb (queryType sql) queryTypeDelete then
    queryTypeDelete ++ buildFrom sql true
  else queryTypeUpdate ++ buildTable sql true ++ buildSetter sql.

Definition after_where (sql : postgres) : string :=
  if String.eqb (queryType sql) queryTypeSelect then
    let sql' := snd (buildFields sql) in
    buildOrderBy sql' ++ buildLimit sql'
  else "".

(** The statement kinds whose renderer calls the predicate renderer. *)
Definition renders_where (kind : string) : bool :=
  String.eqb kind queryTypeSelect || String.eqb kind queryTypeUpdate ||
  String.eqb kind queryTypeDelete.

(** *** Texts written out on the specification's side *)

(** [sep] before every text of the list. *)
Fixpoint after_first (sep : string) (l : list string) : string :=
  match l with
  | [] => ""
  | x :: rest => sep ++ x ++ after_first sep rest
  end.

(** The texts of a list with [sep] between neighbours. *)
Definition separated (sep : string) (l : list string) : string :=
  match l with
  | [] => ""
  | x :: rest => x ++ after_first sep rest
  end.

(** The alias a registry holds for a table: the registered text, or the
    table's name when nothing, or the empty text, is registered. *)
Definition alias_of (srcs : gmap string string) (t : string) : string :=
  match srcs !! t with
  | Some a => if String.eqb a "" then t else a
  | None => t
  end.

(** The number a text of decimal digits stands for. *)
Fixpoint digits_acc (acc : Z) (s : string) : Z :=
  match s with
  | EmptyString => acc
  | String c rest => digits_acc (10 * acc + (Z.of_nat (nat_of_ascii c) - 48)) rest
  end.

Definition digits_value (s : string) : Z := digits_acc 0 s.

(** [q] is the integer nearest to [num / den], the even one of the two
    when [num / den] lies half way between them ([den > 0]). *)
Definition nearest_even (num den q : Z) : Prop :=
  2 * q * den - den <= 2 * num <= 2 * q * den + den /\
  (2 * num = 2 * q * den + den \/ 2 * num = 2 * q * den - den ->
   Z.even q = true).

(** The sign bit of a float. *)
Definition float_sign (f : float64) : bool :=
  match f with
  | S754_zero neg | S754_infinity neg | S754_finite neg _ _ => neg
  | S754_nan => false
  end.

(** [q] is the magnitude of the float in units of [10^-8], rounded to the
    nearest integer, ties to even. *)
Definition magnitude_e8 (f : float64) (q : Z) : Prop :=
  match f with
  | S754_zero _ => q = 0
  | S754_finite _ m e =>
      if (0 <=? e)%Z then q = Z.pos m * 2 ^ e * 10 ^ 8
      else nearest_even (Z.pos m * 10 ^ 8) (2 ^ (- e)) q
  | _ => False
  end.

(** [s] is the fixed notation of the float with 8 decimals: a minus sign
    exactly when the sign bit is set, the decimal numeral of the integer
    part, a point, and the 8 digits of the fraction, of the magnitude
    rounded to the nearest multiple of [10^-8]. *)
Definition float_literal (f : float64) (s : string) : Prop :=
  exists q ip fp,
    s = (if float_sign f then "-" else "") ++ ip ++ "." ++ fp /\
    magnitude_e8 f q /\
    NilZero.uint_of_string ip = Some (N.to_uint (Z.to_N (q / 10 ^ 8))) /\
    String.length fp = 8%nat /\ GoStrings.all_digits fp = true /\
    digits_value fp = q mod 10 ^ 8.

(** A byte of an integer numeral: a digit or the minus sign. *)
Definition numeral_byte (c : ascii) : bool :=
  GoStrings.is_digit c || Ascii.eqb c "-".

Fixpoint numeral_text (s : string) : bool :=
  match s with
  | EmptyString => true
  | String c rest => numeral_byte c && numeral_text rest
  end.

End Terms.

(** ** The repository's statements *)

Module Repository.
Import Fmt Builder.

(** [m[key]] on a [map[string]interface{}]: the value of the entry, or the
    nil interface when the key is missing. *)
Fixpoint index (m : gomap) (key : string) : value :=
  match m with
  | [] => VNil
  | (k, v) :: rest => if String.eqb k key then v else index rest key
  end.

(** [v != nil] for an interface value. *)
Definition not_nil (v : value) : bool :=
  match v with
  | VNil => false
  | _ => true
  end.

(** Modelled from the spec: the struct [QueryModificator] is declared
    outside [src/]; these are the fields [parseParams] assigns and [fetch]
    reads (the spec's projected fields and pagination pair). *)
Record QueryModificator : Type := mkQueryModificator {
  fields : list string;
  skip : Z;
  limit : Z
}.

Definition zero_modificator : QueryModificator := mkQueryModificator [] 0 0.

(** The type assertions of [parseParams], which have no [ok] result: on
    another dynamic type the program panics ([None]). *)
Definition assert_strings (v : value) : option (list string) :=
  match v with
  | VStrings l => Some l
  | _ => None
  end.

Definition assert_int (v : value) : option Z :=
  match v with
  | VInt n => Some n
  | _ => None
  end.

(** [parseParams]: [None] is a panic of a failed type assertion. *)
Definition parseParams (params : data) : option QueryModificator :=
  match params with
  | DataNil => Some zero_modificator
  | DataValue _ => Some zero_modificator
  | DataMap p =>
      match (if not_nil (index p "fields")
             then assert_strings (index p "fields") else Some []) with
      | None => None
      | Some fs =>
          match (if not_nil (index p "skip")
                 then assert_int (index p "skip") else Some 0) with
          | None => None
          | Some sk =>
              match (if not_nil (index p "limit")
                     then assert_int (index p "limit") else Some 0) with
              | None => None
              | Some li => Some (mkQueryModificator fs sk li)
              end
          end
      end
  end.

(** A field of the model's struct as [reflect] shows it: its name, and
    [Tag.Get], which answers the empty string for a tag the field lacks. *)
Record StructField : Type := mkStructField {
  Name : string;
  Tag : string -> string
}.

(** The column a field stands for: its [db] tag, or its name without one. *)
Definition column_of (field : StructField) : string :=
  if negb (String.eqb (Tag field "db") "") then Tag field "db" else Name field.

(** [getKeyByModel], over the fields of the model's struct in order. *)
Definition getKeyByModel (st : list StructField) : string :=
  fold_left
    (fun key field =>
       if negb (String.eqb (Tag field "key") "")
       then (let key := Name field in
             if negb (String.eqb (Tag field "db") "") then Tag field "db"
             else key)
       else key)
    st "".

(** The field carries a [key] tag. *)
Definition is_key (field : StructField) : bool :=
  negb (String.eqb (Tag field "key") "").

Section Fetch.

(** The constant [defaultLimit] and the [db] tags of the model's struct
    ([lib.GetStructTags]) come from outside [src/]. *)
Variable defaultLimit : Z.
Variable modelFields : list string.

(** The builder [fetch] configures, given the modificator. *)
Definition fetch_builder (source : string) (query : gomap)
    (modif : QueryModificator) : postgres :=
  let fs := if (List.length (fields modif) =? 0)%nat then modelFields
            else fields modif in
  let li := if (limit modif =? 0)%Z then defaultLimit else limit modif in
  Builder.Limit li (skip modif)
    (Where query (From source (Select fs fresh_builder))).

(** The statement [fetch] sends to the adapter; [None] when [parseParams]
    panics. *)
Definition fetch_SQL (source : string) (query : gomap) (params : data)
    : option string :=
  match parseParams params with
  | Some modif => Some (Build (fetch_builder source query modif))
  | None => None
  end.

(** The statement of [FindByID]: [fetch] with the query [{"id": id}] and
    nil params. *)
Definition FindByID_SQL (source : string) (id : value) : option string :=
  fetch_SQL source [("id", id)] DataNil.

End Fetch.

(** The statement of [Postgres.Delete]. *)
Definition Delete_SQL (source : string) (q : gomap) : string :=
  Build (Where q (From source (Delete fresh_builder))).

(** The statement of [Postgres.DeleteByID]. *)
Definition DeleteByID_SQL (source : string) (id : value) : string :=
  Build (Where [("id", id)] (From source (Delete fresh_builder))).

End Repository.

(** ** The builder in memory

    A builder as Go stores it: a struct whose slices and maps are
    references to arrays and maps that live apart from it and are shared by
    every copy of the struct. The renderers are run here on the address of
    a struct, and [Build], which has a value receiver, on a copy. *)

Module Memory.
Import Fmt Builder.

Abbreviation loc := nat.

(** A slice header: the array, the length, the capacity. *)
Record slice : Type := mkSlice {
  arr : loc;
  len : nat;
  cap : nat
}.

(** The payload as an interface value: nil, a map (a reference), or a
    value of another dynamic type. *)
Inductive mdata : Type :=
  | MNil
  | MMap (r : loc)
  | MValue (v : value).

(** The structs [parts] and [postgres]; a nil slice or map is [None]. *)
Record mparts : Type := mkMParts {
  table : string;
  fields : option slice;
  where_ : option loc;
  join : option slice;
  order : option slice;
  limit : Z;
  offset : Z;
  insertData : mdata;
  returnID : string
}.

Record mpostgres : Type := mkMPostgres {
  queryType : string;
  parts_ : mparts;
  sources : option loc
}.

(** What an address holds: a builder struct, the array of a slice, or a
    map. *)
Inductive cell : Type :=
  | CStruct (s : mpostgres)
  | CStrings (l : list string)
  | CJoins (l : list Join)
  | COrders (l : list OrderParam)
  | CMap (m : gomap)
  | CAliases (m : gmap string string).

(** The memory: the cell of every address in use; a new cell gets the next
    address. *)
Abbreviation heap := (list cell).

(** A computation on the memory; [None] is a fault (an address that does
    not hold what is read from it). *)
Definition M (A : Type) : Type := heap -> option (A * heap).

Definition ret {A} (a : A) : M A := fun h => Some (a, h).

Definition bind {A B} (m : M A) (k : A -> M B) : M B :=
  fun h => match m h with
           | Some (a, h') => k a h'
           | None => None
           end.

Notation "x <- m ;; k" := (bind m (fun x => k))
  (at level 100, m at next level, right associativity).

Definition load (p : loc) : M mpostgres :=
  fun h => match h !! p with
           | Some (CStruct s) => Some (s, h)
           | _ => None
           end.

Definition store (p : loc) (s : mpostgres) : M unit :=
  fun h => match h !! p with
           | Some (CStruct _) => Some (tt, <[p := CStruct s]> h)
           | _ => None
           end.

Definition alloc (c : cell) : M loc :=
  fun h => Some (List.length h, (h ++ [c])%list).

(** Reading through a reference. *)
Definition read_strings (sl : option slice) : M (list string) :=
  fun h => match sl with
           | None => Some ([], h)
           | Some s => match h !! arr s with
                       | Some (CStrings l) => Some (take (len s) l, h)
                       | _ => None
                       end
           end.

Definition read_joins (sl : option slice) : M (list Join) :=
  fun h => match sl with
           | None => Some ([], h)
           | Some s => match h !! arr s with
                       | Some (CJoins l) => Some (take (len s) l, h)
                       | _ => None
                       end
           end.

Definition read_orders (sl : option slice) : M (list OrderParam) :=
  fun h => match sl with
           | None => Some ([], h)
           | Some s => match h !! arr s with
                       | Some (COrders l) => Some (take (len s) l, h)
                       | _ => None
                       end
           end.

Definition read_map (r : option loc) : M gomap :=
  fun h => match r with
           | None => Some ([], h)
           | Some a => match h !! a with
                       | Some (CMap m) => Some (m, h)
                       | _ => None
                       end
           end.

Definition read_aliases (r : option loc) : M (gmap string string) :=
  fun h => match r with
           | None => Some (∅, h)
           | Some a => match h !! a with
                       | Some (CAliases m) => Some (m, h)
                       | _ => None
                       end
           end.

Definition read_data (d : mdata) : M data :=
  fun h => match d with
           | MNil => Some (DataNil, h)
           | MValue v => Some (DataValue v, h)
           | MMap a => match h !! a with
                       | Some (CMap m) => Some (DataMap m, h)
                       | _ => None
                       end
           end.

(** What a struct and the arrays and maps it refers to amount to. *)
Definition contents (s : mpostgres) : M postgres :=
  fs <- read_strings (fields (parts_ s)) ;;
  w <- read_map (where_ (parts_ s)) ;;
  js <- read_joins (join (parts_ s)) ;;
  os <- read_orders (order (parts_ s)) ;;
  d <- read_data (insertData (parts_ s)) ;;
  als <- read_aliases (sources s) ;;
  ret (mkPostgres (queryType s)
         (mkParts (table (parts_ s)) fs w js os (limit (parts_ s))
                  (offset (parts_ s)) d (returnID (parts_ s)))
         als).

(** The builder at an address, as its user sees it. *)
Definition snapshot (p : loc) : M postgres :=
  s <- load p ;; contents s.

(** A renderer that only reads the builder at [sql]. *)
Definition reads (f : postgres -> string) (sql : loc) : M string :=
  b <- snapshot sql ;; ret (f b).

Definition with_fields (sl : option slice) (s : mpostgres) : mpostgres :=
  mkMPostgres (queryType s)
    (mkMParts (table (parts_ s)) sl (where_ (parts_ s)) (join (parts_ s))
              (order (parts_ s)) (limit (parts_ s)) (offset (parts_ s))
              (insertData (parts_ s)) (returnID (parts_ s)))
    (sources s).

(** [buildFields] on the builder at [sql]: without fields, a new array
    holding the wildcard is made and the struct at [sql] is given a slice
    of it; then the text is read off. *)
Definition buildFields (sql : loc) : M string :=
  s <- load sql ;;
  fs <- read_strings (fields (parts_ s)) ;;
  _ <- (if (List.length fs =? 0)%nat
        then (a <- alloc (CStrings ["*"]) ;;
              store sql (with_fields (Some (mkSlice a 1%nat 1%nat)) s))
        else ret tt) ;;
  reads (fun b => fst (Builder.buildFields b)) sql.

Definition buildSelect (sql : loc) : M string :=
  fs <- buildFields sql ;;
  rest <- reads (fun b => buildFrom b true ++ buildJoin b ++ buildWhere b ++
                             buildOrderBy b ++ buildLimit b) sql ;;
  ret (queryTypeSelect ++ fs ++ rest).

(** The body of [Build], on the receiver at [sql]. *)
Definition render (sql : loc) : M string :=
  s <- load sql ;;
  if String.eqb (queryType s) queryTypeSelect then buildSelect sql
  else if String.eqb (queryType s) queryTypeInsert then reads buildInsert sql
  else if String.eqb (queryType s) queryTypeDelete then reads buildDelete sql
  else if String.eqb (queryType s) queryTypeUpdate then reads buildUpdate sql
  else ret "".

(** [Build] called on the builder at [p]: the receiver is a copy of the
    struct, a new variable; the body runs on its address. The arrays and
    maps the copy refers to are those of the struct at [p]. *)
Definition Build (p : loc) : M string :=
  s <- load p ;;
  receiver <- alloc (CStruct s) ;;
  render receiver.

(** Every address in use in [h] holds in [h'] what it holds in [h]. *)
Definition kept (h h' : heap) : Prop :=
  forall i : loc, (i < List.length h)%nat -> h' !! i = h !! i.

(** Every address that holds an array or a map in [h] holds the same in
    [h']. *)
Definition kept_data (h h' : heap) : Prop :=
  forall (i : loc) (c : cell),
    h !! i = Some c -> (forall s, c <> CStruct s) -> h' !! i = Some c.

(** A computation that reads arrays and maps only: it leaves the memory as
    it is and gives the same in every memory that keeps them. *)
Definition reads_data {A} (m : M A) : Prop :=
  forall h a h1, m h = Some (a, h1) ->
    h1 = h /\ forall h', kept_data h h' -> m h' = Some (a, h').

(** A memory with a SELECT builder without fields at address 3: its
    predicates at 0, its aliases at 1, an array of capacity 4 for its
    fields, none of them in use, at 2. *)
Definition example_heap : heap :=
  [CMap [("id", VInt 5)];
   CAliases (<["users" := "u"]> ∅);
   CStrings ["a"; "b"; "c"; "d"];
   CStruct (mkMPostgres "SELECT"
              (mkMParts "users" (Some (mkSlice 2%nat 0%nat 4%nat))
                        (Some 0%nat) None None 10 0 MNil "")
              (Some 1%nat))].

End Memory.

(** ** Vocabulary for chains of calls *)

Module Chains.
Import Fmt Builder Calls.

(** The statement keyword a kind-setting call stores. *)
Definition kind_of (c : call) : string :=
  match c with
  | CSelect _ => queryTypeSelect
  | CInsert _ => queryTypeInsert
  | CUpdate _ => queryTypeUpdate
  | CDelete => queryTypeDelete
  | _ => ""
  end.

(** The fields the [Select] calls of a chain name, in call order. *)
Definition selected_fields (cs : list call) : list string :=
  flat_map (fun c => match c with CSelect fs => fs | _ => [] end) cs.

(** The predicate map of the last [Where] call of a chain, or [w0]. *)
Definition last_where (cs : list call) (w0 : gomap) : gomap :=
  fold_left (fun w c => match c with CWhere w' => w' | _ => w end) cs w0.

(** The call is a [Join] whose joined source is the table [t]. *)
Definition joins_source (t : string) (c : call) : bool :=
  match c with
  | CJoin jp => String.eqb (Source jp) t
  | _ => false
  end.

(** The projected columns of a SELECT: the builder's fields (the wildcard
    when there are none) under the alias, then each join's fields under the
    joined source. *)
Definition projection (sql : postgres) : list string :=
  map (fun f => getAliasBySource sql (table (parts_ sql)) ++ "." ++ f)
      (match fields (parts_ sql) with [] => ["*"] | fs => fs end) ++
  flat_map (fun j => map (fun f => Source j ++ "." ++ f) (Fields j))
           (join (parts_ sql)).

(** The sum of the lengths of the texts, each counted with a separator. *)
Definition total_length (sep : string) (l : list string) : nat :=
  list_sum (map (fun e => String.length e + String.length sep)%nat l).

(** The parts of a builder a configuration call assigns. *)
Inductive part : Type :=
  | PKind | PTable | PFields | PPredicates | PJoins | POrder | PPage
  | PPayload | PReturning | PAliases.

Definition part_code (a : part) : nat :=
  match a with
  | PKind => 0 | PTable => 1 | PFields => 2 | PPredicates => 3 | PJoins => 4
  | POrder => 5 | PPage => 6 | PPayload => 7 | PReturning => 8 | PAliases => 9
  end.

Definition footprint (c : call) : list part :=
  match c with
  | CSelect _ => [PKind; PFields]
  | CInsert _ => [PKind; PTable]
  | CUpdate _ => [PKind; PTable; PAliases]
  | CDelete => [PKind]
  | CValues _ | CSet _ => [PPayload]
  | CFrom _ => [PTable; PAliases]
  | CReturnID _ => [PReturning]
  | CWhere _ => [PPredicates]
  | CJoin _ => [PJoins; PAliases]
  | COrder _ => [POrder]
  | CLimit _ _ => [PPage]
  end.

(** Two calls assign a common part. *)
Definition shares_part (c1 c2 : call) : bool :=
  existsb (fun a => existsb (fun b => Nat.eqb (part_code a) (part_code b))
                            (footprint c2))
          (footprint c1).

(** The entries of a payload: those of the map, none for another value. *)
Definition payload_entries (d : data) : gomap :=
  match asMap d with
  | Some m => m
  | None => []
  end.

(** A params value [parseParams] accepts under the key [fields], and under
    the keys [skip] and [limit]: nil (or the key is missing), or a value of
    the asserted type. *)
Definition strings_or_nil (v : value) : bool :=
  match v with
  | VNil | VStrings _ => true
  | _ => false
  end.

Definition int_or_nil (v : value) : bool :=
  match v with
  | VNil | VInt _ => true
  | _ => false
  end.

Definition strings_of (v : value) : list string :=
  match v with
  | VStrings l => l
  | _ => []
  end.

Definition int_of (v : value) : Z :=
  match v with
  | VInt n => n
  | _ => 0
  end.

Definition well_typed_params (p : gomap) : bool :=
  strings_or_nil (Repository.index p "fields") &&
  int_or_nil (Repository.index p "skip") &&
  int_or_nil (Repository.index p "limit").

End Chains.

(** * Properties *)

Import Strconv Fmt Builder Calls Terms Chains.

(** ** Helper lemmas *)

Lemma append_nil_r (s : string) : s ++ "" = s.
Proof. induction s as [|c s IH]; simpl; [reflexivity | now rewrite IH]. Qed.

Lemma append_assoc (s1 s2 s3 : string) : (s1 ++ s2) ++ s3 = s1 ++ s2 ++ s3.
Proof. induction s1 as [|c s1 IH]; simpl; [reflexivity | now rewrite IH]. Qed.

Lemma length_append (s1 s2 : string) :
  String.length (s1 ++ s2) = (String.length s1 + String.length s2)%nat.
Proof. induction s1 as [|c s1 IH]; simpl; [reflexivity | now rewrite IH]. Qed.

Lemma alias_after_Update tbl sql :
  getAliasBySource (Update tbl sql) tbl = tablePrefix.
Proof.
  unfold getAliasBySource, Update, addToSources; simpl.
  rewrite lookup_insert_eq. reflexivity.
Qed.

Lemma run_app cs1 cs2 sql : run (cs1 ++ cs2) sql = run cs2 (run cs1 sql).
Proof. unfold run. apply fold_left_app. Qed.

Lemma queryType_apply_other c sql :
  sets_kind c = false -> queryType (apply_call c sql) = queryType sql.
Proof. destruct c; simpl; intros H; try discriminate; reflexivity. Qed.

Lemma queryType_run_other cs : forall sql,
  forallb (fun c => negb (sets_kind c)) cs = true ->
  queryType (run cs sql) = queryType sql.
Proof.
  induction cs as [|c cs IH]; intros sql H; simpl in *.
  - reflexivity.
  - apply andb_true_iff in H as [Hc Hcs].
    unfold run in *; simpl. rewrite IH by assumption.
    apply queryType_apply_other. now destruct (sets_kind c).
Qed.

Lemma all_digits_append (a b : string) :
  GoStrings.all_digits (a ++ b) = GoStrings.all_digits a && GoStrings.all_digits b.
Proof.
  induction a as [|c a IH]; simpl; [reflexivity|].
  rewrite IH. now rewrite andb_assoc.
Qed.

(** *** Searching one byte *)

Lemma index_single_char (c : ascii) (s : string) :
  String.index 0 (String c "") s = None <-> GoStrings.occurs c s = false.
Proof.
  induction s as [|a s IH]; simpl.
  - tauto.
  - destruct (Ascii.ascii_dec c a) as [->|Hne].
    + rewrite Ascii.eqb_refl. simpl.
      destruct s; simpl; split; discriminate.
    + assert (E : Ascii.eqb c a = false) by now apply Ascii.eqb_neq.
      rewrite E. simpl.
      destruct (String.index 0 (String c "") s) as [n|].
      * split; [discriminate|]. intros H. apply IH in H. discriminate.
      * split; [intros _; now apply IH | reflexivity].
Qed.

Lemma Index_single_char (c : ascii) (s : string) :
  (GoStrings.Index s (String c "") =? -1)%Z = negb (GoStrings.occurs c s).
Proof.
  unfold GoStrings.Index.
  destruct (String.index 0 (String c "") s) as [n|] eqn:E.
  - destruct (GoStrings.occurs c s) eqn:O.
    + simpl. apply Z.eqb_neq. lia.
    + apply index_single_char in O. congruence.
  - apply index_single_char in E. now rewrite E.
Qed.

Lemma whereSign_spec (key : string) :
  whereSign key = if carries_operator key then "" else "=".
Proof.
  unfold whereSign, carries_operator.
  rewrite !Index_single_char.
  destruct (GoStrings.occurs "=" key), (GoStrings.occurs ">" key),
           (GoStrings.occurs "<" key); reflexivity.
Qed.

(** *** Decimal numerals *)

Lemma string_of_uint_digits (d : Decimal.uint) :
  GoStrings.all_digits (NilEmpty.string_of_uint d) = true.
Proof. induction d; simpl; auto. Qed.

Lemma to_uint_nonnil (n : N) : N.to_uint n <> Decimal.Nil.
Proof.
  pose proof (DecimalN.Unsigned.to_of (N.to_uint n)) as H.
  rewrite DecimalN.Unsigned.of_to in H. rewrite H.
  apply DecimalFacts.unorm_nonnil.
Qed.

Lemma FormatUint_digits (n : Z) : GoStrings.all_digits (FormatUint n) = true.
Proof.
  unfold FormatUint, NilZero.string_of_uint.
  destruct (N.to_uint (Z.to_N n)) eqn:E; try reflexivity;
    rewrite <- E; apply string_of_uint_digits.
Qed.

Lemma FormatUint_nonempty (n : Z) : FormatUint n <> "".
Proof.
  unfold FormatUint, NilZero.string_of_uint.
  destruct (N.to_uint (Z.to_N n)); simpl; discriminate.
Qed.

Lemma FormatUint_reads_back (n : Z) :
  NilZero.uint_of_string (FormatUint n) = Some (N.to_uint (Z.to_N n)).
Proof. unfold FormatUint. apply NilZero.usu, to_uint_nonnil. Qed.

Lemma FormatInt_numeral (n : Z) : decimal_numeral n (FormatInt n).
Proof.
  exists (FormatUint (Z.abs n)). unfold FormatInt.
  destruct (n <? 0)%Z eqn:E.
  - repeat split; auto using FormatUint_nonempty, FormatUint_digits,
      FormatUint_reads_back.
  - apply Z.ltb_ge in E. rewrite Z.abs_eq by assumption.
    repeat split; auto using FormatUint_nonempty, FormatUint_digits,
      FormatUint_reads_back.
Qed.

Lemma digit_of_mod (z : Z) :
  GoStrings.is_digit (ascii_of_nat (48 + Z.to_nat (z mod 10))) = true.
Proof.
  pose proof (Z.mod_pos_bound z 10 ltac:(lia)) as B.
  assert (C : z mod 10 = 0 \/ z mod 10 = 1 \/ z mod 10 = 2 \/ z mod 10 = 3 \/
              z mod 10 = 4 \/ z mod 10 = 5 \/ z mod 10 = 6 \/ z mod 10 = 7 \/
              z mod 10 = 8 \/ z mod 10 = 9) by lia.
  repeat (destruct C as [C|C]; [rewrite C; reflexivity|]).
  rewrite C; reflexivity.
Qed.

Lemma digits_fixed_digits (k : nat) : forall z,
  GoStrings.all_digits (digits_fixed k z) = true.
Proof.
  induction k as [|k IH]; intros z; cbn [digits_fixed]; [reflexivity|].
  rewrite all_digits_append, IH.
  cbn [GoStrings.all_digits andb]. now rewrite digit_of_mod.
Qed.

Lemma digits_fixed_length (k : nat) : forall z,
  String.length (digits_fixed k z) = k.
Proof.
  induction k as [|k IH]; intros z; cbn [digits_fixed]; [reflexivity|].
  rewrite length_append, IH. cbn [String.length]. lia.
Qed.

Lemma fixed_text_notation (prec : nat) (neg : bool) (q : Z) :
  fixed_notation (S prec) (sign_text neg ++ fixed_text (S prec) q).
Proof.
  exists (sign_text neg), (FormatUint (q / 10 ^ Z.of_nat (S prec))),
         (digits_fixed (S prec) (q mod 10 ^ Z.of_nat (S prec))).
  split; [reflexivity|]. split; [destruct neg; auto|].
  split; [apply FormatUint_nonempty|]. split; [apply FormatUint_digits|].
  split; [apply digits_fixed_digits | apply digits_fixed_length].
Qed.

(** *** Texts in which the letter L does not occur *)

Lemma occurs_append (c : ascii) (a b : string) :
  GoStrings.occurs c (a ++ b) = GoStrings.occurs c a || GoStrings.occurs c b.
Proof.
  induction a as [|x a IH]; [reflexivity|].
  change (String x a ++ b) with (String x (a ++ b)).
  cbn [GoStrings.occurs]. rewrite IH. apply orb_assoc.
Qed.

Lemma no_L_append (a b : string) : no_L (a ++ b) = no_L a && no_L b.
Proof. unfold no_L. rewrite occurs_append. apply negb_orb. Qed.

Lemma no_L_cons (c : ascii) (s : string) :
  no_L (String c s) = negb (Ascii.eqb "L" c) && no_L s.
Proof. unfold no_L. cbn [GoStrings.occurs]. apply negb_orb. Qed.

Lemma no_L_digits (s : string) : GoStrings.all_digits s = true -> no_L s = true.
Proof.
  induction s as [|c s IH]; [reflexivity|].
  cbn [GoStrings.all_digits]. intros H. apply andb_true_iff in H as [Hc Hs].
  rewrite no_L_cons, IH by assumption. rewrite andb_true_r.
  destruct c as [[] [] [] [] [] [] [] []]; try discriminate; reflexivity.
Qed.

Lemma no_L_substring (s : string) : forall n m,
  no_L s = true -> no_L (String.substring n m s) = true.
Proof.
  induction s as [|c s IH]; intros n m H.
  - destruct n, m; reflexivity.
  - rewrite no_L_cons in H. apply andb_true_iff in H as [Hc Hs].
    destruct n as [|n]; cbn [String.substring].
    + destruct m as [|m]; [reflexivity|].
      rewrite no_L_cons, Hc. now apply IH.
    + now apply IH.
Qed.

Lemma no_L_zeros (n : nat) : no_L (zeros n) = true.
Proof.
  induction n as [|n IH]; [reflexivity|].
  cbn [zeros]. now rewrite no_L_cons, IH.
Qed.

Lemma no_L_Join (sep : string) (l : list string) :
  no_L sep = true -> forallb no_L l = true -> no_L (GoStrings.Join l sep) = true.
Proof.
  intros Hsep. induction l as [|e l IH]; intros H; [reflexivity|].
  simpl in H. apply andb_true_iff in H as [He Hl].
  destruct l as [|e' l]; [exact He|].
  change (GoStrings.Join (e :: e' :: l) sep)
    with (e ++ sep ++ GoStrings.Join (e' :: l) sep).
  rewrite !no_L_append, He, Hsep, IH by assumption. reflexivity.
Qed.

Lemma forallb_map {A B} (f : A -> B) (p : B -> bool) (l : list A) :
  (forall a, p (f a) = true) -> forallb p (map f l) = true.
Proof. intros H. induction l as [|a l IH]; simpl; [reflexivity|]. now rewrite H, IH. Qed.

Lemma no_L_FormatUint (n : Z) : no_L (FormatUint n) = true.
Proof. apply no_L_digits, FormatUint_digits. Qed.

Lemma no_L_FormatInt (n : Z) : no_L (FormatInt n) = true.
Proof.
  unfold FormatInt. destruct (n <? 0)%Z.
  - now rewrite no_L_append, no_L_FormatUint.
  - apply no_L_FormatUint.
Qed.

Lemma no_L_sign_text (neg : bool) : no_L (sign_text neg) = true.
Proof. now destruct neg. Qed.

Lemma no_L_fixed_text (prec : nat) (q : Z) : no_L (fixed_text prec q) = true.
Proof.
  unfold fixed_text. rewrite no_L_append, no_L_FormatUint.
  destruct prec; [reflexivity|].
  rewrite no_L_append. cbn [andb].
  rewrite (no_L_digits _ (digits_fixed_digits _ _)). reflexivity.
Qed.

Lemma no_L_FormatFloat_f (prec : nat) (f : float64) :
  no_L (FormatFloat_f prec f) = true.
Proof.
  destruct f as [neg|neg| |neg m e]; cbn [FormatFloat_f].
  - now rewrite no_L_append, no_L_sign_text, no_L_fixed_text.
  - now destruct neg.
  - reflexivity.
  - now rewrite no_L_append, no_L_sign_text, no_L_fixed_text.
Qed.

Lemma shortest_digits_are_digits (m : positive) (e : Z) :
  GoStrings.all_digits (fst (shortest_digits m e)) = true.
Proof.
  unfold shortest_digits.
  destruct (canonical m e) as [m' e'].
  destruct (shortest_from _ _ _ _ _) as [c j].
  destruct (strip_zeros _ _ _) as [c' j'].
  apply FormatUint_digits.
Qed.

Lemma no_L_fmtE (ds : string) (dp : Z) : no_L ds = true -> no_L (fmtE ds dp) = true.
Proof.
  intros H. unfold fmtE.
  rewrite !no_L_append.
  assert (M : no_L match ds with
                   | "" => "0"
                   | String c "" => String c ""
                   | String c rest => String c ("." ++ rest)
                   end = true).
  { destruct ds as [|c [|c' rest]]; [reflexivity|exact H|].
    rewrite no_L_cons in H. apply andb_true_iff in H as [Hc Hr].
    now rewrite no_L_cons, Hc, no_L_append, Hr. }
  rewrite M. cbn [andb].
  destruct (dp - 1 <? 0)%Z, (Z.abs (dp - 1) <? 10)%Z;
    rewrite ?no_L_append, ?no_L_FormatUint; reflexivity.
Qed.

Lemma no_L_fmtF (ds : string) (dp : Z) : no_L ds = true -> no_L (fmtF ds dp) = true.
Proof.
  intros H. unfold fmtF. destruct (0 <? dp)%Z.
  - rewrite no_L_append.
    rewrite no_L_substring by now rewrite no_L_append, H, no_L_zeros.
    destruct (Z.to_nat dp <? String.length ds)%nat; [|reflexivity].
    rewrite no_L_append, no_L_substring by assumption. reflexivity.
  - now rewrite !no_L_append, no_L_zeros, H.
Qed.

Lemma no_L_FormatFloat_g (f : float64) : no_L (FormatFloat_g f) = true.
Proof.
  destruct f as [neg|neg| |neg m e]; cbn [FormatFloat_g].
  - now destruct neg.
  - now destruct neg.
  - reflexivity.
  - pose proof (shortest_digits_are_digits m e) as D.
    destruct (shortest_digits m e) as [ds dp]. cbn [fst] in D.
    apply no_L_digits in D.
    rewrite no_L_append, no_L_sign_text. cbn [andb].
    destruct ((dp - 1 <? -4) || (6 <=? dp - 1))%Z;
      [now apply no_L_fmtE | now apply no_L_fmtF].
Qed.

Lemma no_L_brackets (l : list string) :
  forallb no_L l = true -> no_L (brackets l) = true.
Proof.
  intros H. unfold brackets.
  rewrite !no_L_append, (no_L_Join " " l) by (reflexivity || assumption).
  reflexivity.
Qed.

Lemma no_L_Sprint (v : value) : value_no_L v = true -> no_L (Sprint v) = true.
Proof.
  destruct v; cbn [value_no_L Sprint]; intros H;
    auto using no_L_FormatFloat_g, no_L_FormatInt.
  - now destruct b.
  - apply no_L_brackets, forallb_map, no_L_FormatInt.
  - now apply no_L_brackets.
  - apply no_L_brackets, forallb_map, no_L_FormatInt.
  - apply no_L_brackets, forallb_map, no_L_FormatFloat_g.
Qed.

Lemma no_L_toString (v : value) : value_no_L v = true -> no_L (toString v) = true.
Proof.
  intros H.
  assert (Q : no_L (Sprint_quoted v) = true).
  { unfold Sprint_quoted. now rewrite !no_L_append, no_L_Sprint. }
  destruct v; cbn [toString]; auto using no_L_FormatFloat_f, no_L_FormatInt.
Qed.

Lemma no_L_whereSign (key : string) : no_L (whereSign key) = true.
Proof. rewrite whereSign_spec. now destruct (carries_operator key). Qed.

Lemma no_L_whereTerm sql key v :
  no_L (getAliasBySource sql (table (parts_ sql))) = true ->
  no_L key = true -> value_no_L v = true ->
  no_L (whereTerm sql key v) = true.
Proof.
  intros Ha Hk Hv.
  assert (S : no_L (getAliasBySource sql (table (parts_ sql)) ++ "." ++ key ++
                    whereSign key ++ toString v) = true)
    by now rewrite !no_L_append, Ha, Hk, no_L_whereSign, no_L_toString.
  destruct v; try exact S; cbn [whereTerm value_no_L] in *.
  - rewrite !no_L_append, Ha, Hk. cbn [andb].
    rewrite (no_L_Join "," _ eq_refl (forallb_map _ _ _ no_L_FormatInt)).
    reflexivity.
  - rewrite !no_L_append, Ha, Hk. cbn [andb].
    rewrite (no_L_Join "," (map (fun st => "'" ++ st ++ "'") l)); [reflexivity..|].
    clear S. induction l as [|e l IH]; [reflexivity|].
    simpl in Hv. apply andb_true_iff in Hv as [He Hl].
    cbn [map forallb]. rewrite IH by assumption.
    now rewrite !no_L_append, He.
Qed.

Lemma no_L_buildWhere sql :
  no_L (getAliasBySource sql (table (parts_ sql))) = true ->
  map_no_L (where_ (parts_ sql)) = true ->
  no_L (buildWhere sql) = true.
Proof.
  intros Ha Hm. unfold buildWhere.
  destruct (List.length (where_ (parts_ sql)) =? 0)%nat; [reflexivity|].
  rewrite no_L_append. cbn [andb].
  apply no_L_Join; [reflexivity|].
  unfold whereTerms, map_no_L in *.
  induction (where_ (parts_ sql)) as [|[k v] w IH]; [reflexivity|].
  simpl in Hm. apply andb_true_iff in Hm as [Hkv Hw].
  apply andb_true_iff in Hkv as [Hk Hv].
  cbn [map forallb fst snd]. now rewrite no_L_whereTerm, IH.
Qed.

Lemma no_L_buildSetter sql :
  data_no_L (insertData (parts_ sql)) = true -> no_L (buildSetter sql) = true.
Proof.
  intros Hd. unfold buildSetter.
  destruct (List.length (where_ (parts_ sql)) =? 0)%nat; [reflexivity|].
  rewrite no_L_append. cbn [andb].
  apply no_L_Join; [reflexivity|].
  unfold setterTerms.
  destruct (insertData (parts_ sql)) as [|m|v]; cbn [asMap]; try reflexivity.
  cbn [data_no_L] in Hd. unfold map_no_L in Hd.
  induction m as [|[k v] m IH]; [reflexivity|].
  simpl in Hd. apply andb_true_iff in Hd as [Hkv Hm].
  apply andb_true_iff in Hkv as [Hk Hv].
  cbn [map forallb fst snd]. rewrite IH by assumption.
  now rewrite !no_L_append, Hk, no_L_toString.
Qed.

Lemma no_L_buildUpdate sql :
  update_input_no_L sql = true -> no_L (buildUpdate sql) = true.
Proof.
  unfold update_input_no_L. intros H.
  apply andb_true_iff in H as [H Hd]. apply andb_true_iff in H as [H Hw].
  apply andb_true_iff in H as [Ht Ha].
  unfold buildUpdate, buildTable. cbn [negb].
  now rewrite !no_L_append, Ht, Ha, no_L_buildSetter, no_L_buildWhere.
Qed.

(** A text in which the first byte of a word does not occur does not
    contain the word. *)
Lemma Contains_first_byte (c : ascii) (rest s : string) :
  GoStrings.occurs c s = false -> GoStrings.Contains s (String c rest) = false.
Proof.
  intros H. unfold GoStrings.Contains, GoStrings.Index.
  assert (E : String.index 0 (String c rest) s = None).
  { induction s as [|a s IH]; [reflexivity|].
    simpl in H. apply orb_false_iff in H as [Hc Hs].
    cbn [String.index String.prefix].
    destruct (Ascii.ascii_dec c a) as [->|Hne];
      [now rewrite Ascii.eqb_refl in Hc|].
    now rewrite IH. }
  now rewrite E.
Qed.

(** ** The statement kind decides the renderer *)

Lemma render_unset sql : queryType sql = "" -> render sql = ("", sql).
Proof. unfold render. intros ->. reflexivity. Qed.

Lemma Build_select sql :
  queryType sql = queryTypeSelect -> Build sql = fst (buildSelect sql).
Proof. unfold Build, call_Build, render. intros ->. reflexivity. Qed.

Lemma Build_insert sql :
  queryType sql = queryTypeInsert -> Build sql = buildInsert sql.
Proof. unfold Build, call_Build, render. intros ->. reflexivity. Qed.

Lemma Build_delete sql :
  queryType sql = queryTypeDelete -> Build sql = buildDelete sql.
Proof. unfold Build, call_Build, render. intros ->. reflexivity. Qed.

Lemma Build_update sql :
  queryType sql = queryTypeUpdate -> Build sql = buildUpdate sql.
Proof. unfold Build, call_Build, render. intros ->. reflexivity. Qed.

(** ** C6: no statement kind, no text *)

(** C6. On a builder that starts fresh and receives any chain of calls
    none of which is [Select], [Insert], [Update] or [Delete], [Build]
    returns the empty string. [Build] is a total function of the builder:
    there is no path on which it fails. *)
Theorem C6_build_without_kind_is_empty (cs : list call) :
  forallb (fun c => negb (sets_kind c)) cs = true ->
  Build (run cs fresh_builder) = "".
Proof.
  intros H. unfold Build, call_Build. simpl.
  rewrite render_unset; [reflexivity|].
  rewrite queryType_run_other by assumption. reflexivity.
Qed.

Lemma C6_build_without_kind_witness :
  Build (run [CFrom "users"; CWhere [("id", VInt 5)]; CLimit 10 0;
              COrder (mkOrderParam "id" true false);
              CValues (DataMap [("a", VInt 1)]); CReturnID "id"] fresh_builder) = "".
Proof.
  apply (C6_build_without_kind_is_empty
           [CFrom "users"; CWhere [("id", VInt 5)]; CLimit 10 0;
            COrder (mkOrderParam "id" true false);
            CValues (DataMap [("a", VInt 1)]); CReturnID "id"]).
  reflexivity.
Defined.

(** ** C10: [Build] leaves the caller's builder as it was *)

Lemma buildFields_fills_wildcard sql :
  fields (parts_ sql) = [] ->
  fields (parts_ (snd (buildFields sql))) = ["*"].
Proof. unfold buildFields. intros ->. reflexivity. Qed.

(** *** Reading the memory *)

Lemma reads_data_ret {A} (a : A) : Memory.reads_data (Memory.ret a).
Proof.
  intros h x h1 [= <- <-]. split; [reflexivity|]. intros h' _. reflexivity.
Qed.

Lemma reads_data_bind {A B} (m : Memory.M A) (k : A -> Memory.M B) :
  Memory.reads_data m -> (forall a, Memory.reads_data (k a)) ->
  Memory.reads_data (Memory.bind m k).
Proof.
  intros Hm Hk h b h1. unfold Memory.bind.
  destruct (m h) as [[a h0]|] eqn:E; [|discriminate].
  destruct (Hm _ _ _ E) as [-> Sm]. intros R.
  destruct (Hk a _ _ _ R) as [-> Sk]. split; [reflexivity|].
  intros h' K. rewrite (Sm h' K). now apply Sk.
Qed.

Ltac read_cell :=
  let h := fresh "h" in let x := fresh "x" in let h1 := fresh "h1" in
  let r := fresh "r" in let E := fresh "E" in let K := fresh "K" in
  intros h x h1; cbv beta delta [Memory.read_strings Memory.read_joins
    Memory.read_orders Memory.read_map Memory.read_aliases Memory.read_data];
  match goal with
  | |- match ?d with _ => _ end = _ -> _ =>
      destruct d as [r|] || destruct d as [|r|r] || idtac
  end;
  try (intros [= <- <-]; split; [reflexivity|]; intros h' _; reflexivity);
  match goal with
  | |- match ?l with _ => _ end = _ -> _ =>
      destruct l as [[]|] eqn:E; try discriminate
  end;
  intros [= <- <-]; split; [reflexivity|]; intros h' K;
  rewrite (K _ _ E) by discriminate; reflexivity.

Lemma reads_data_strings sl : Memory.reads_data (Memory.read_strings sl).
Proof. read_cell. Qed.

Lemma reads_data_joins sl : Memory.reads_data (Memory.read_joins sl).
Proof. read_cell. Qed.

Lemma reads_data_orders sl : Memory.reads_data (Memory.read_orders sl).
Proof. read_cell. Qed.

Lemma reads_data_map r : Memory.reads_data (Memory.read_map r).
Proof. read_cell. Qed.

Lemma reads_data_aliases r : Memory.reads_data (Memory.read_aliases r).
Proof. read_cell. Qed.

Lemma reads_data_data d : Memory.reads_data (Memory.read_data d).
Proof. read_cell. Qed.

Lemma reads_data_contents s : Memory.reads_data (Memory.contents s).
Proof.
  unfold Memory.contents.
  repeat (apply reads_data_bind; [|intros ?]);
    auto using reads_data_strings, reads_data_joins, reads_data_orders,
      reads_data_map, reads_data_aliases, reads_data_data, reads_data_ret.
Qed.

Lemma kept_kept_data (h h' : Memory.heap) :
  Memory.kept h h' -> Memory.kept_data h h'.
Proof.
  intros K i c E _. rewrite K; [exact E|]. now apply lookup_lt_Some in E.
Qed.

(** The contents of a struct, read piece by piece. *)
Lemma contents_pieces s h b :
  Memory.contents s h = Some (b, h) ->
  exists fs w js os d als,
    Memory.read_strings (Memory.fields (Memory.parts_ s)) h = Some (fs, h) /\
    Memory.read_map (Memory.where_ (Memory.parts_ s)) h = Some (w, h) /\
    Memory.read_joins (Memory.join (Memory.parts_ s)) h = Some (js, h) /\
    Memory.read_orders (Memory.order (Memory.parts_ s)) h = Some (os, h) /\
    Memory.read_data (Memory.insertData (Memory.parts_ s)) h = Some (d, h) /\
    Memory.read_aliases (Memory.sources s) h = Some (als, h) /\
    b = mkPostgres (Memory.queryType s)
          (mkParts (Memory.table (Memory.parts_ s)) fs w js os
                   (Memory.limit (Memory.parts_ s))
                   (Memory.offset (Memory.parts_ s)) d
                   (Memory.returnID (Memory.parts_ s)))
          als.
Proof.
  unfold Memory.contents, Memory.bind.
  destruct (Memory.read_strings _ h) as [[fs h1]|] eqn:E1; [|discriminate].
  destruct (reads_data_strings _ _ _ _ E1) as [-> _].
  destruct (Memory.read_map _ h) as [[w h1]|] eqn:E2; [|discriminate].
  destruct (reads_data_map _ _ _ _ E2) as [-> _].
  destruct (Memory.read_joins _ h) as [[js h1]|] eqn:E3; [|discriminate].
  destruct (reads_data_joins _ _ _ _ E3) as [-> _].
  destruct (Memory.read_orders _ h) as [[os h1]|] eqn:E4; [|discriminate].
  destruct (reads_data_orders _ _ _ _ E4) as [-> _].
  destruct (Memory.read_data _ h) as [[d h1]|] eqn:E5; [|discriminate].
  destruct (reads_data_data _ _ _ _ E5) as [-> _].
  destruct (Memory.read_aliases _ h) as [[als h1]|] eqn:E6; [|discriminate].
  destruct (reads_data_aliases _ _ _ _ E6) as [-> _].
  intros [= <-]. exists fs, w, js, os, d, als. repeat split; reflexivity.
Qed.

Lemma snapshot_pieces p h b h1 :
  Memory.snapshot p h = Some (b, h1) ->
  h1 = h /\ exists s,
    h !! p = Some (Memory.CStruct s) /\ Memory.contents s h = Some (b, h).
Proof.
  unfold Memory.snapshot, Memory.bind, Memory.load.
  destruct (h !! p) as [[s| | | | |]|] eqn:E; try discriminate.
  intros C. destruct (reads_data_contents _ _ _ _ C) as [-> _].
  split; [reflexivity|]. now exists s.
Qed.

Lemma snapshot_from p h s b :
  h !! p = Some (Memory.CStruct s) -> Memory.contents s h = Some (b, h) ->
  Memory.snapshot p h = Some (b, h).
Proof.
  intros E C. unfold Memory.snapshot, Memory.bind, Memory.load.
  now rewrite E.
Qed.

(** *** [buildSelect] on the struct at an address *)

Lemma buildSelect_text_wildcard (b : postgres) :
  fields (parts_ b) = [] ->
  snd (buildFields b) = set_parts (set_fields ["*"] (parts_ b)) b /\
  fst (buildFields (set_parts (set_fields ["*"] (parts_ b)) b)) =
    fst (buildFields b).
Proof.
  destruct b as [q [t fs w js os l o d r] srcs]. cbn [parts_ fields].
  intros ->. split; reflexivity.
Qed.

Lemma buildSelect_text_fields (b : postgres) :
  fields (parts_ b) <> [] -> snd (buildFields b) = b.
Proof.
  destruct b as [q [t fs w js os l o d r] srcs]. cbn [parts_ fields].
  intros H. destruct fs; [contradiction|reflexivity].
Qed.

Lemma bind_some {A B} (m : Memory.M A) (k : A -> Memory.M B) h a h1 :
  m h = Some (a, h1) -> Memory.bind m k h = k a h1.
Proof. intros E. unfold Memory.bind. now rewrite E. Qed.

Lemma load_some p h s :
  h !! p = Some (Memory.CStruct s) -> Memory.load p h = Some (s, h).
Proof. intros E. unfold Memory.load. now rewrite E. Qed.

Lemma reads_some f p h b :
  Memory.snapshot p h = Some (b, h) -> Memory.reads f p h = Some (f b, h).
Proof. intros E. unfold Memory.reads. now rewrite (bind_some _ _ _ _ _ E). Qed.

Lemma buildFields_run (h : Memory.heap) (sql : Memory.loc)
    (s : Memory.mpostgres) (b : postgres) :
  h !! sql = Some (Memory.CStruct s) ->
  Memory.contents s h = Some (b, h) ->
  exists h',
    Memory.buildFields sql h = Some (fst (buildFields b), h') /\
    (forall i, (i < List.length h)%nat -> i <> sql -> h' !! i = h !! i) /\
    Memory.snapshot sql h' = Some (snd (buildFields b), h').
Proof.
  intros Hs Hc.
  destruct (contents_pieces _ _ _ Hc)
    as (fs & w & js & os & d & als & R1 & R2 & R3 & R4 & R5 & R6 & Hb).
  assert (Hf : fields (parts_ b) = fs) by (subst b; reflexivity).
  unfold Memory.buildFields.
  rewrite (bind_some _ _ _ _ _ (load_some _ _ _ Hs)).
  rewrite (bind_some _ _ _ _ _ R1).
  destruct fs as [|f0 fs]; cbn [List.length Nat.eqb].
  - (* no fields: a new array, and the struct at [sql] is written *)
    assert (Lt : (sql < List.length h)%nat) by now apply lookup_lt_Some in Hs.
    set (s' := Memory.with_fields
                 (Some (Memory.mkSlice (List.length h) 1%nat 1%nat)) s).
    set (h' := <[sql := Memory.CStruct s']> (h ++ [Memory.CStrings ["*"]])%list).
    assert (St : Memory.bind (Memory.alloc (Memory.CStrings ["*"]))
                   (fun a => Memory.store sql
                      (Memory.with_fields (Some (Memory.mkSlice a 1%nat 1%nat)) s)) h =
                 Some (tt, h')).
    { rewrite (bind_some _ _ h (List.length h)
                 (h ++ [Memory.CStrings ["*"]])%list eq_refl).
      unfold Memory.store. now rewrite lookup_app_l, Hs by assumption. }
    rewrite (bind_some _ _ _ _ _ St).
    assert (K : Memory.kept_data h h').
    { intros i c E N. subst h'.
      assert (i <> sql) by (intros ->; rewrite Hs in E; injection E as <-;
                            now apply (N s)).
      rewrite list_lookup_insert_ne by congruence.
      rewrite lookup_app_l by now apply lookup_lt_Some in E. exact E. }
    assert (L' : h' !! sql = Some (Memory.CStruct s')).
    { subst h'. apply list_lookup_insert_eq. rewrite length_app. lia. }
    assert (A : h' !! List.length h = Some (Memory.CStrings ["*"])).
    { subst h'. rewrite list_lookup_insert_ne by lia.
      now rewrite list_lookup_middle. }
    assert (C' : Memory.contents s' h' =
                 Some (set_parts (set_fields ["*"] (parts_ b)) b, h')).
    { unfold Memory.contents.
      assert (F1 : Memory.read_strings (Memory.fields (Memory.parts_ s')) h' =
                   Some (["*"], h')).
      { subst s'. unfold Memory.read_strings.
        cbn [Memory.with_fields Memory.parts_ Memory.fields Memory.arr
             Memory.len]. now rewrite A. }
      rewrite (bind_some _ _ _ _ _ F1).
      rewrite (bind_some _ _ _ _ _ (proj2 (reads_data_map _ _ _ _ R2) h' K)).
      rewrite (bind_some _ _ _ _ _ (proj2 (reads_data_joins _ _ _ _ R3) h' K)).
      rewrite (bind_some _ _ _ _ _ (proj2 (reads_data_orders _ _ _ _ R4) h' K)).
      rewrite (bind_some _ _ _ _ _ (proj2 (reads_data_data _ _ _ _ R5) h' K)).
      rewrite (bind_some _ _ _ _ _ (proj2 (reads_data_aliases _ _ _ _ R6) h' K)).
      subst b. reflexivity. }
    destruct (buildSelect_text_wildcard b Hf) as [Sb Ft].
    pose proof (snapshot_from _ _ _ _ L' C') as Sn'.
    exists h'. split; [|split].
    + rewrite (reads_some _ _ _ _ Sn'). now rewrite Ft.
    + intros i Hi Hne. subst h'.
      rewrite list_lookup_insert_ne by congruence.
      now rewrite lookup_app_l.
    + now rewrite Sb.
  - (* fields: nothing is written *)
    rewrite (bind_some _ _ h tt h eq_refl).
    assert (Sb : snd (buildFields b) = b)
      by (apply buildSelect_text_fields; rewrite Hf; discriminate).
    pose proof (snapshot_from _ _ _ _ Hs Hc) as Sn'.
    exists h. split; [|split].
    + now rewrite (reads_some _ _ _ _ Sn').
    + reflexivity.
    + now rewrite Sb.
Qed.

Lemma buildSelect_run (h : Memory.heap) (sql : Memory.loc)
    (s : Memory.mpostgres) (b : postgres) :
  h !! sql = Some (Memory.CStruct s) ->
  Memory.contents s h = Some (b, h) ->
  exists h',
    Memory.buildSelect sql h = Some (fst (buildSelect b), h') /\
    (forall i, (i < List.length h)%nat -> i <> sql -> h' !! i = h !! i) /\
    Memory.snapshot sql h' = Some (snd (buildFields b), h').
Proof.
  intros Hs Hc.
  destruct (buildFields_run h sql s b Hs Hc) as (h' & Run & Fr & Sn').
  exists h'. split; [|split; assumption].
  unfold Memory.buildSelect.
  rewrite (bind_some _ _ _ _ _ Run).
  rewrite (bind_some _ _ _ _ _ (reads_some _ _ _ _ Sn')).
  unfold Memory.ret, buildSelect.
  destruct (buildFields b) as [f b2]. reflexivity.
Qed.

(** C10. A builder lives in memory as a struct that refers to the arrays
    of its slices and to its maps. [Build], called on the builder at an
    address, returns the text of the builder and leaves every address that
    was in use holding what it held: the struct of the caller and every
    array and map, those the receiver's copy shares with it too. So the
    builder at that address is afterwards what it was, in kind, table,
    fields, predicates, joins, order terms, limit, offset, payload,
    returning column and aliases. The wildcard default does reach the
    struct the renderer runs on: [buildSelect] run on the caller's own
    struct leaves it with the wildcard as its fields; under [Build] that
    struct is the copy. *)
Theorem C10_build_keeps_builder (h : Memory.heap) (p : Memory.loc)
    (b : postgres) :
  Memory.snapshot p h = Some (b, h) ->
  (exists h',
     Memory.Build p h = Some (Build b, h') /\
     Memory.kept h h' /\
     Memory.snapshot p h' = Some (b, h')) /\
  (fields (parts_ b) = [] ->
   exists t h2,
     Memory.buildSelect p h = Some (t, h2) /\
     Memory.snapshot p h2 =
       Some (set_parts (set_fields ["*"] (parts_ b)) b, h2)).
Proof.
  intros Sn. destruct (snapshot_pieces _ _ _ _ Sn) as (_ & s & Hs & Hc).
  split.
  - set (h1 := (h ++ [Memory.CStruct s])%list).
    assert (K1 : Memory.kept h h1)
      by (intros i Hi; subst h1; now rewrite lookup_app_l).
    assert (L1 : h1 !! List.length h = Some (Memory.CStruct s))
      by (subst h1; now rewrite list_lookup_middle).
    assert (C1 : Memory.contents s h1 = Some (b, h1))
      by (apply (reads_data_contents _ _ _ _ Hc); now apply kept_kept_data).
    assert (Q : queryType b = Memory.queryType s).
    { destruct (contents_pieces _ _ _ Hc)
        as (? & ? & ? & ? & ? & ? & _ & _ & _ & _ & _ & _ & ->). reflexivity. }
    assert (Fin : forall h', Memory.kept h h' ->
              Memory.snapshot p h' = Some (b, h')).
    { intros h' K. apply snapshot_from with s.
      - rewrite K; [exact Hs | now apply lookup_lt_Some in Hs].
      - apply (reads_data_contents _ _ _ _ Hc). now apply kept_kept_data. }
    assert (Rd : forall f, Memory.reads f (List.length h) h1 = Some (f b, h1))
      by (intros f; apply reads_some; now apply snapshot_from with s).
    assert (St : forall t h', Memory.render (List.length h) h1 = Some (t, h') ->
              Memory.Build p h = Some (t, h')).
    { intros t h' R. unfold Memory.Build.
      rewrite (bind_some _ _ _ _ _ (load_some _ _ _ Hs)).
      now rewrite (bind_some _ _ h (List.length h) h1 eq_refl). }
    assert (Rn : Memory.render (List.length h) h1 =
              (if String.eqb (queryType b) queryTypeSelect
               then Memory.buildSelect (List.length h)
               else if String.eqb (queryType b) queryTypeInsert
               then Memory.reads buildInsert (List.length h)
               else if String.eqb (queryType b) queryTypeDelete
               then Memory.reads buildDelete (List.length h)
               else if String.eqb (queryType b) queryTypeUpdate
               then Memory.reads buildUpdate (List.length h)
               else Memory.ret "") h1).
    { unfold Memory.render.
      rewrite (bind_some _ _ _ _ _ (load_some _ _ _ L1)). now rewrite Q. }
    destruct (String.eqb_spec (queryType b) queryTypeSelect) as [S|S].
    + destruct (buildSelect_run h1 (List.length h) s b L1 C1)
        as (h' & Run & Fr & _).
      rewrite Build_select by assumption.
      assert (K : Memory.kept h h').
      { intros i Hi. rewrite Fr; [now apply K1| |lia].
        subst h1. rewrite length_app. lia. }
      exists h'. split; [apply St; now rewrite Rn|].
      split; [exact K | now apply Fin].
    + destruct (String.eqb_spec (queryType b) queryTypeInsert) as [I|I].
      { rewrite Build_insert by assumption. exists h1.
        split; [apply St; rewrite Rn; apply Rd|].
        split; [exact K1 | now apply Fin]. }
      destruct (String.eqb_spec (queryType b) queryTypeDelete) as [D|D].
      { rewrite Build_delete by assumption. exists h1.
        split; [apply St; rewrite Rn; apply Rd|].
        split; [exact K1 | now apply Fin]. }
      destruct (String.eqb_spec (queryType b) queryTypeUpdate) as [U|U].
      { rewrite Build_update by assumption. exists h1.
        split; [apply St; rewrite Rn|]; [|split; [exact K1 | now apply Fin]].
        apply Rd. }
      exists h1. split; [|split; [exact K1 | now apply Fin]].
      apply St. rewrite Rn. unfold Memory.ret. f_equal. f_equal.
      unfold Build, call_Build, render.
      apply String.eqb_neq in S, I, D, U. cbn [fst]. now rewrite S, I, D, U.
  - intros Hf.
    destruct (buildSelect_run h p s b Hs Hc) as (h2 & Run & _ & Sn2).
    exists (fst (buildSelect b)), h2. split; [exact Run|].
    now rewrite (proj1 (buildSelect_text_wildcard b Hf)) in Sn2.
Qed.

(** The theorem at a memory that holds a SELECT builder without fields,
    whose fields slice has spare capacity in a shared array: [Build] gives
    the text with the wildcard and the builder still has no fields. *)
Lemma C10_build_keeps_builder_witness :
  exists h',
    Memory.Build 3%nat Memory.example_heap =
      Some ("SELECT u.* FROM  users as u WHERE u.id=5 LIMIT 10 OFFSET 0", h') /\
    Memory.kept Memory.example_heap h' /\
    option_map (fun r => fields (parts_ (fst r))) (Memory.snapshot 3%nat h') =
      Some [].
Proof.
  destruct (proj1 (C10_build_keeps_builder Memory.example_heap 3%nat
                     (mkPostgres "SELECT"
                        (mkParts "users" [] [("id", VInt 5)] [] [] 10 0
                                 DataNil "")
                        (<["users" := "u"]> ∅))
                     eq_refl))
    as (h' & Run & K & Sn).
  exists h'. split; [|split].
  - rewrite Run. reflexivity.
  - exact K.
  - rewrite Sn. reflexivity.
Defined.


(** ** C3: a SELECT, clause by clause *)

(** The text read with a single blank after [FROM] is not what [Build]
    returns for that chain. *)
Lemma C3_single_blank_after_from_refuted :
  String.eqb (Build select_users_by_id)
    "SELECT u.id FROM users as u WHERE u.id=5 LIMIT 10 OFFSET 0" = false.
Proof. vm_compute. reflexivity. Qed.

(** C3 (amended). For that chain [Build] returns
    [SELECT u.id FROM  users as u WHERE u.id=5 LIMIT 10 OFFSET 0], with two
    blanks after [FROM] (one ends the keyword, one starts the table), [u]
    being the default alias; and every SELECT is the keyword, the fields,
    then the FROM, JOIN, WHERE, ORDER BY and LIMIT clauses in this order. *)
Theorem C3_select_text_and_clause_order :
  Build select_users_by_id =
    "SELECT u.id FROM  users as u WHERE u.id=5 LIMIT 10 OFFSET 0" /\
  tablePrefix = "u" /\
  forall p srcs,
    let sql := mkPostgres queryTypeSelect p srcs in
    let sql' := snd (buildFields sql) in
    Build sql =
      queryTypeSelect ++ fst (buildFields sql) ++ buildFrom sql' true ++
      buildJoin sql' ++ buildWhere sql' ++ buildOrderBy sql' ++ buildLimit sql'.
Proof.
  split; [vm_compute; reflexivity|]. split; [reflexivity|].
  intros p srcs sql sql'. rewrite Build_select by reflexivity.
  unfold buildSelect. subst sql'. destruct (buildFields sql). reflexivity.
Qed.

(** ** C1 and C2: the UPDATE renderer *)

(** C1 (the code at the failing input). An UPDATE configured with a
    payload and no predicates, whatever the table and the payload, is
    rendered without any SET clause: the guard of [buildSetter] looks at the
    predicate map, not at the payload. *)
Theorem C1_update_without_predicates_has_no_set (tbl : string) (payload : gomap) :
  Build (Set_ (DataMap payload) (Update tbl fresh_builder)) =
    "UPDATE " ++ tbl ++ " as u" /\
  Build (Where [] (Set_ (DataMap payload) (Update tbl fresh_builder))) =
    "UPDATE " ++ tbl ++ " as u" /\
  buildSetter (Where [] (Set_ (DataMap payload) (Update tbl fresh_builder))) = "".
Proof.
  assert (A : getAliasBySource (Update tbl fresh_builder) tbl = "u")
    by apply alias_after_Update.
  repeat split.
  - rewrite Build_update by reflexivity.
    unfold buildUpdate, buildTable, buildSetter, buildWhere; simpl.
    change (getAliasBySource _ tbl) with (getAliasBySource (Update tbl fresh_builder) tbl).
    rewrite A. now rewrite !append_nil_r.
  - rewrite Build_update by reflexivity.
    unfold buildUpdate, buildTable, buildSetter, buildWhere; simpl.
    change (getAliasBySource _ tbl) with (getAliasBySource (Update tbl fresh_builder) tbl).
    rewrite A. now rewrite !append_nil_r.
Qed.

(** With a predicate the SET clause is there: one [column = value] term
    per payload entry, joined by a comma and a blank. *)
Lemma buildSetter_with_predicates sql kv q payload :
  where_ (parts_ sql) = kv :: q ->
  insertData (parts_ sql) = DataMap payload ->
  buildSetter sql =
    " SET " ++ GoStrings.Join
      (map (fun e => fst e ++ " = " ++ toString (snd e)) payload) ", " /\
  List.length (setterTerms sql) = List.length payload.
Proof.
  intros Hw Hd. unfold buildSetter, setterTerms. rewrite Hw, Hd. simpl.
  split; [reflexivity|]. now rewrite length_map.
Qed.

(** C2. The text of an UPDATE is the keyword, the table, the SET clause and
    the WHERE clause, with no LIMIT clause after them: it is the same text
    whatever limit and offset were configured; the statement the repository
    builds with [Limit(1, 0)] is the one it would build without that call;
    and when the letter L occurs in none of the texts the caller supplied
    (table, alias, keys and values of predicates and payload), the keyword
    LIMIT occurs nowhere in the text. *)
Theorem C2_update_has_no_limit_clause :
  (forall p srcs l o,
     let sql := mkPostgres queryTypeUpdate p srcs in
     Build (Limit l o sql) = Build sql /\
     Build (Limit l o sql) =
       queryTypeUpdate ++ buildTable sql true ++ buildSetter sql ++ buildWhere sql) /\
  (forall source q payload,
     repository_Update_SQL source q payload =
       Build (Where q (Set_ (DataMap payload) (Update source fresh_builder)))) /\
  (forall p srcs l o,
     let sql := mkPostgres queryTypeUpdate p srcs in
     update_input_no_L sql = true ->
     GoStrings.Contains (Build (Limit l o sql)) "LIMIT" = false).
Proof.
  split; [|split].
  - intros p srcs l o sql. split.
    + rewrite !Build_update by reflexivity. reflexivity.
    + rewrite Build_update by reflexivity. reflexivity.
  - intros source q payload. unfold repository_Update_SQL.
    rewrite !Build_update by reflexivity. reflexivity.
  - intros p srcs l o sql H.
    rewrite Build_update by reflexivity.
    change (buildUpdate (Limit l o sql)) with (buildUpdate sql).
    apply Contains_first_byte.
    apply no_L_buildUpdate in H. unfold no_L in H.
    now apply negb_true_iff in H.
Qed.

Lemma C2_update_has_no_limit_clause_witness :
  Build (Limit 1 0 (Where [("id", VInt 1)]
          (Set_ (DataMap [("x", VInt 1)]) (Update "t" fresh_builder)))) =
    "UPDATE t as u SET x = 1 WHERE u.id=1" /\
  GoStrings.Contains
    (Build (Limit 1 0 (Where [("id", VInt 1)]
             (Set_ (DataMap [("x", VInt 1)]) (Update "t" fresh_builder)))))
    "LIMIT" = false /\
  GoStrings.Contains (Build select_users_by_id) "LIMIT" = true.
Proof.
  split; [vm_compute; reflexivity|]. split; [|vm_compute; reflexivity].
  apply (proj2 (proj2 C2_update_has_no_limit_clause)
           (mkParts "t" [] [("id", VInt 1)] [] [] 0 0
                    (DataMap [("x", VInt 1)]) "")
           (<["t" := "u"]> ∅) 1 0).
  vm_compute. reflexivity.
Defined.


(** ** C4, C5, C9: one predicate term *)

(** C4. For a predicate value that is not a sequence of 64-bit integers or
    of strings, the term is [alias.key=value] when none of [=], [>], [<]
    occurs in the key, and [alias.key] directly followed by the value when
    one of them occurs; the value is the text [toString] gives. *)
Theorem C4_scalar_term_sign (sql : postgres) (key : string) (v : value) :
  in_list_value v = false ->
  (carries_operator key = false ->
   whereTerm sql key v =
     getAliasBySource sql (table (parts_ sql)) ++ "." ++ key ++ "=" ++ toString v) /\
  (carries_operator key = true ->
   whereTerm sql key v =
     getAliasBySource sql (table (parts_ sql)) ++ "." ++ key ++ toString v).
Proof.
  intros Hv.
  assert (E : whereTerm sql key v =
              getAliasBySource sql (table (parts_ sql)) ++ "." ++ key ++
              whereSign key ++ toString v)
    by (destruct v; try discriminate; reflexivity).
  rewrite E, whereSign_spec.
  split; intros ->; reflexivity.
Qed.

Lemma C4_scalar_term_sign_witness :
  whereTerm (From "users" fresh_builder) "id" (VInt 5) = "u.id=5" /\
  whereTerm (From "users" fresh_builder) "age>" (VInt 30) = "u.age>30".
Proof.
  split.
  - apply (proj1 (C4_scalar_term_sign (From "users" fresh_builder) "id" (VInt 5)
                    eq_refl)).
    reflexivity.
  - apply (proj2 (C4_scalar_term_sign (From "users" fresh_builder) "age>" (VInt 30)
                    eq_refl)).
    reflexivity.
Defined.

Lemma FormatInt_string_of_int (n : Z) :
  FormatInt n = NilZero.string_of_int (Z.to_int n).
Proof. destruct n; reflexivity. Qed.

Lemma to_int_not_nil (n : Z) :
  Z.to_int n <> Decimal.Pos Decimal.Nil /\ Z.to_int n <> Decimal.Neg Decimal.Nil.
Proof.
  destruct n as [|p|p]; cbn; split; try discriminate;
    intros [= E]; exact (to_uint_nonnil (Npos p) E).
Qed.

Lemma FormatInt_inj (n m : Z) : FormatInt n = FormatInt m -> n = m.
Proof.
  intros H.
  assert (R : forall k, option_map Z.of_int
                (NilZero.int_of_string (FormatInt k)) = Some k).
  { intros k. rewrite FormatInt_string_of_int.
    destruct (to_int_not_nil k) as [P N].
    rewrite NilZero.isi by assumption.
    cbn [option_map]. f_equal. apply DecimalZ.of_to. }
  pose proof (R n) as Rn. rewrite H, R in Rn. congruence.
Qed.

Lemma Join_separated (sep : string) (l : list string) :
  GoStrings.Join l sep = separated sep l.
Proof.
  destruct l as [|x l]; [reflexivity|].
  revert x. induction l as [|y l IH]; intros x.
  - cbn. now rewrite append_nil_r.
  - change (GoStrings.Join (x :: y :: l) sep)
      with (x ++ sep ++ GoStrings.Join (y :: l) sep).
    rewrite IH. reflexivity.
Qed.

Lemma alias_of_spec (sql : postgres) (t : string) :
  getAliasBySource sql t = alias_of (sources sql) t.
Proof.
  unfold getAliasBySource, alias_of.
  destruct (sources sql !! t); reflexivity.
Qed.

(** *** An IN list of integers determines the integers *)

Lemma numeral_text_digits (s : string) :
  GoStrings.all_digits s = true -> numeral_text s = true.
Proof.
  induction s as [|c s IH]; [reflexivity|].
  cbn [GoStrings.all_digits numeral_text]. intros H.
  apply andb_true_iff in H as [Hc Hs].
  unfold numeral_byte. now rewrite Hc, IH.
Qed.

Lemma numeral_text_FormatInt (n : Z) : numeral_text (FormatInt n) = true.
Proof.
  unfold FormatInt. destruct (n <? 0)%Z.
  - change ("-" ++ FormatUint (Z.abs n)) with (String "-" (FormatUint (Z.abs n))).
    cbn [numeral_text]. rewrite numeral_text_digits by apply FormatUint_digits.
    reflexivity.
  - apply numeral_text_digits, FormatUint_digits.
Qed.

(** Two texts of numeral bytes, each followed by a byte that is none, are
    equal with equal rests when the whole texts are equal. *)
Lemma numeral_prefix_unique (a : string) : forall a' d d' r r',
  numeral_text a = true -> numeral_text a' = true ->
  numeral_byte d = false -> numeral_byte d' = false ->
  a ++ String d r = a' ++ String d' r' ->
  a = a' /\ d = d' /\ r = r'.
Proof.
  induction a as [|c a IH]; intros a' d d' r r' Ha Ha' Hd Hd' E.
  - destruct a' as [|c' a'].
    + cbn in E. injection E as -> ->. auto.
    + cbn in E. injection E as -> _.
      cbn [numeral_text] in Ha'. apply andb_true_iff in Ha' as [Hc _].
      congruence.
  - cbn [numeral_text] in Ha. apply andb_true_iff in Ha as [Hc Ha].
    destruct a' as [|c' a'].
    + cbn in E. injection E as -> _. congruence.
    + cbn [numeral_text] in Ha'. apply andb_true_iff in Ha' as [_ Ha'].
      change (String c (a ++ String d r) = String c' (a' ++ String d' r')) in E.
      injection E as -> E.
      destruct (IH a' d d' r r' Ha Ha' Hd Hd' E) as (-> & -> & ->). auto.
Qed.

Lemma after_first_numerals_inj (l : list Z) : forall l',
  after_first "," (map FormatInt l) ++ ")" =
  after_first "," (map FormatInt l') ++ ")" -> l = l'.
Proof.
  induction l as [|n l IH]; intros [|n' l'] E; cbn [map after_first] in E.
  - reflexivity.
  - discriminate E.
  - discriminate E.
  - rewrite !append_assoc in E.
    change ("," ++ ?x) with (String "," x) in E. injection E as E.
    destruct (after_first "," (map FormatInt l) ++ ")") as [|d r] eqn:T;
      [destruct l; discriminate T|].
    destruct (after_first "," (map FormatInt l') ++ ")") as [|d' r'] eqn:T';
      [destruct l'; discriminate T'|].
    assert (D : numeral_byte d = false)
      by (destruct l; cbn in T; injection T as <- _; reflexivity).
    assert (D' : numeral_byte d' = false)
      by (destruct l'; cbn in T'; injection T' as <- _; reflexivity).
    destruct (numeral_prefix_unique _ _ _ _ _ _ (numeral_text_FormatInt n)
                (numeral_text_FormatInt n') D D' E) as (F & -> & ->).
    apply FormatInt_inj in F. subst n'. f_equal.
    apply IH. now rewrite T'.
Qed.

Lemma separated_numerals_inj (l l' : list Z) :
  separated "," (map FormatInt l) ++ ")" =
  separated "," (map FormatInt l') ++ ")" -> l = l'.
Proof.
  destruct l as [|n l], l' as [|n' l']; cbn [map separated]; intros E.
  - reflexivity.
  - exfalso. pose proof (numeral_text_FormatInt n') as N.
    rewrite append_assoc in E.
    destruct (FormatInt n') as [|c r] eqn:F.
    + unfold FormatInt in F. destruct (n' <? 0)%Z; [discriminate F|].
      now apply FormatUint_nonempty in F.
    + cbn in E. injection E as <- _. cbn [numeral_text] in N.
      apply andb_true_iff in N as [N _]. vm_compute in N. discriminate N.
  - exfalso. pose proof (numeral_text_FormatInt n) as N.
    rewrite append_assoc in E.
    destruct (FormatInt n) as [|c r] eqn:F.
    + unfold FormatInt in F. destruct (n <? 0)%Z; [discriminate F|].
      now apply FormatUint_nonempty in F.
    + cbn in E. injection E as -> _. cbn [numeral_text] in N.
      apply andb_true_iff in N as [N _]. vm_compute in N. discriminate N.
  - rewrite !append_assoc in E.
    destruct (after_first "," (map FormatInt l) ++ ")") as [|d r] eqn:T;
      [destruct l; discriminate T|].
    destruct (after_first "," (map FormatInt l') ++ ")") as [|d' r'] eqn:T';
      [destruct l'; discriminate T'|].
    assert (D : numeral_byte d = false)
      by (destruct l; cbn in T; injection T as <- _; reflexivity).
    assert (D' : numeral_byte d' = false)
      by (destruct l'; cbn in T'; injection T' as <- _; reflexivity).
    destruct (numeral_prefix_unique _ _ _ _ _ _ (numeral_text_FormatInt n)
                (numeral_text_FormatInt n') D D' E) as (F & -> & ->).
    apply FormatInt_inj in F. subst n'. f_equal.
    apply after_first_numerals_inj. now rewrite T, T'.
Qed.

(** C5. For a predicate value that is a sequence of 64-bit integers or of
    strings the term is the table's alias, a point, the key, and
    [ IN (m1,m2,...)] with one member per element, in the order of the
    sequence: the member of an integer is its plain decimal numeral, the
    member of a string is the string between single quotes. The term of a
    sequence of integers determines the sequence: other integers, another
    order or another length give another term. *)
Theorem C5_sequence_term_in_list (sql : postgres) (key : string) :
  (forall l : list Z,
     whereTerm sql key (VInt64s l) =
       alias_of (sources sql) (table (parts_ sql)) ++ "." ++ key ++
       " IN (" ++ separated "," (map FormatInt l) ++ ")" /\
     Forall2 decimal_numeral l (map FormatInt l) /\
     forall l' : list Z,
       whereTerm sql key (VInt64s l') = whereTerm sql key (VInt64s l) ->
       l' = l) /\
  (forall l : list string,
     whereTerm sql key (VStrings l) =
       alias_of (sources sql) (table (parts_ sql)) ++ "." ++ key ++
       " IN (" ++ separated "," (map (fun st => "'" ++ st ++ "'") l) ++ ")" /\
     Forall2 (fun st m => m = "'" ++ st ++ "'") l
             (map (fun st => "'" ++ st ++ "'") l)).
Proof.
  assert (I : forall l : list Z,
     whereTerm sql key (VInt64s l) =
       alias_of (sources sql) (table (parts_ sql)) ++ "." ++ key ++
       " IN (" ++ separated "," (map FormatInt l) ++ ")").
  { intros l. cbn [whereTerm]. now rewrite alias_of_spec, Join_separated. }
  split.
  - intros l. split; [apply I|]. split.
    + induction l as [|n l IH]; cbn [map]; constructor;
        [apply FormatInt_numeral | exact IH].
    + intros l' E. rewrite !I in E.
      do 3 apply String.app_inj in E.
      change (" IN (" ++ ?x) with (String " " (String "I" (String "N"
                (String " " (String "(" x))))) in E.
      injection E as E. now apply separated_numerals_inj.
  - intros l. split.
    + cbn [whereTerm]. now rewrite alias_of_spec, Join_separated.
    + induction l as [|st l IH]; cbn [map]; constructor; [reflexivity | exact IH].
Qed.

(** The theorem at a builder configured by [From("users")]: three
    integers, one of them negative; two strings; no element. *)
Lemma C5_sequence_term_in_list_witness :
  whereTerm (From "users" fresh_builder) "id" (VInt64s [3; -1; 20]) =
    "u.id IN (3,-1,20)" /\
  whereTerm (From "users" fresh_builder) "name" (VStrings ["a"; "b c"]) =
    "u.name IN ('a','b c')" /\
  whereTerm (From "users" fresh_builder) "id" (VInt64s []) = "u.id IN ()".
Proof.
  split; [|split].
  - eapply eq_trans.
    + exact (proj1 (proj1 (C5_sequence_term_in_list (From "users" fresh_builder)
                             "id") [3; -1; 20])).
    + vm_compute. reflexivity.
  - eapply eq_trans.
    + exact (proj1 (proj2 (C5_sequence_term_in_list (From "users" fresh_builder)
                             "name") ["a"; "b c"])).
    + vm_compute. reflexivity.
  - eapply eq_trans.
    + exact (proj1 (proj1 (C5_sequence_term_in_list (From "users" fresh_builder)
                             "id") [])).
    + vm_compute. reflexivity.
Defined.

(** The term with an [=] put after a key that carries its operator is not
    the term the renderer writes for a sequence of native integers. *)
Lemma C9_equals_sign_refuted :
  String.eqb
    (whereTerm delete_by_int_sequence "n>" (VInts [1; 2]))
    (getAliasBySource delete_by_int_sequence
       (table (parts_ delete_by_int_sequence)) ++ "." ++ "n>" ++ "=" ++
     quoted (Sprint (VInts [1; 2]))) = false /\
  Build delete_by_int_sequence = "DELETE FROM  t as u WHERE u.n>'[1 2]'".
Proof. split; vm_compute; reflexivity. Qed.

(** C9 (amended). For a predicate value that is a sequence of native
    integers or of floats, the renderer writes no IN list: the term is
    [alias.key], the sign of the scalar path ([=] unless one of [=], [>],
    [<] occurs in the key, then nothing), and the generic text of the whole
    sequence between single quotes. The helper [formatValue], which no
    renderer calls, gives an IN list for a sequence of floats. *)
Theorem C9_other_sequences_take_scalar_path (sql : postgres) (key : string) :
  (forall l : list Z,
     whereTerm sql key (VInts l) =
       getAliasBySource sql (table (parts_ sql)) ++ "." ++ key ++
       (if carries_operator key then "" else "=") ++
       "'" ++ Sprint (VInts l) ++ "'" /\
     Sprint (VInts l) = "[" ++ GoStrings.Join (map FormatInt l) " " ++ "]") /\
  (forall l : list float64,
     whereTerm sql key (VFloat64s l) =
       getAliasBySource sql (table (parts_ sql)) ++ "." ++ key ++
       (if carries_operator key then "" else "=") ++
       "'" ++ Sprint (VFloat64s l) ++ "'" /\
     Sprint (VFloat64s l) = "[" ++ GoStrings.Join (map FormatFloat_g l) " " ++ "]") /\
  (forall l : list float64,
     formatValue (VFloat64s l) =
       " IN (" ++ GoStrings.Join (map FormatFloat_g l) "," ++ ")").
Proof.
  split; [|split]; intros l.
  - split; [|reflexivity].
    unfold whereTerm. now rewrite whereSign_spec.
  - split; [|reflexivity].
    unfold whereTerm. now rewrite whereSign_spec.
  - reflexivity.
Qed.

(** ** C7: the WHERE clause *)

Lemma buildWhere_after_buildFields sql :
  buildWhere (snd (buildFields sql)) = buildWhere sql.
Proof.
  unfold buildFields.
  destruct (List.length (fields (parts_ sql)) =? 0)%nat; reflexivity.
Qed.

Lemma buildWhere_empty_iff sql :
  buildWhere sql = "" <-> where_ (parts_ sql) = [].
Proof.
  unfold buildWhere.
  destruct (where_ (parts_ sql)) as [|e w]; simpl.
  - tauto.
  - split; discriminate.
Qed.

(** For an INSERT the predicates are set and no WHERE clause is written. *)
Lemma C7_insert_writes_no_where :
  where_ (parts_ insert_with_predicate) <> [] /\
  Build insert_with_predicate = "INSERT INTO t(a) VALUES (1)" /\
  GoStrings.Contains (Build insert_with_predicate) "WHERE" = false.
Proof. split; [discriminate|]. split; vm_compute; reflexivity. Qed.

(** C7 (amended). For every rendered SELECT, UPDATE or DELETE the text is
    what comes before the WHERE clause, the WHERE clause, and what comes
    after it; the WHERE clause is empty exactly when the predicate map is
    empty; and for a non-empty map, whatever the values are, it is
    [ WHERE ] followed by one term per entry, the i-th term made from the
    i-th visited entry, the terms joined with [ AND ]. An INSERT is
    rendered without regard to the predicate map. *)
Theorem C7_where_clause :
  (forall sql : postgres,
     renders_where (queryType sql) = true ->
     Build sql = before_where sql ++ buildWhere sql ++ after_where sql /\
     (buildWhere sql = "" <-> where_ (parts_ sql) = []) /\
     (where_ (parts_ sql) <> [] ->
      buildWhere sql = " WHERE " ++ GoStrings.Join (whereTerms sql) " AND " /\
      List.length (whereTerms sql) = List.length (where_ (parts_ sql)) /\
      forall i k v, nth_error (where_ (parts_ sql)) i = Some (k, v) ->
        nth_error (whereTerms sql) i = Some (whereTerm sql k v))) /\
  (forall p srcs w,
     let sql := mkPostgres queryTypeInsert p srcs in
     Build (Where w sql) = Build sql).
Proof.
  split.
  - intros sql K. split; [|split].
    + unfold renders_where in K. unfold before_where, after_where.
      destruct (String.eqb_spec (queryType sql) queryTypeSelect) as [S|S].
      * rewrite Build_select by assumption. unfold buildSelect.
        rewrite <- (buildWhere_after_buildFields sql).
        destruct (buildFields sql) as [fs sql']. cbn [fst snd].
        now rewrite !append_assoc.
      * destruct (String.eqb_spec (queryType sql) queryTypeDelete) as [D|D].
        -- rewrite Build_delete by assumption. unfold buildDelete.
           now rewrite append_nil_r, !append_assoc.
        -- destruct (String.eqb_spec (queryType sql) queryTypeUpdate) as [U|U];
             [|discriminate].
           rewrite Build_update by assumption. unfold buildUpdate.
           now rewrite append_nil_r, !append_assoc.
    + apply buildWhere_empty_iff.
    + intros Hne. split; [|split].
      * unfold buildWhere.
        destruct (where_ (parts_ sql)); [contradiction|reflexivity].
      * unfold whereTerms. apply length_map.
      * intros i k v H. unfold whereTerms.
        now apply (map_nth_error (fun kv => whereTerm sql (fst kv) (snd kv))) in H.
  - intros p srcs w sql. rewrite !Build_insert by reflexivity. reflexivity.
Qed.

Lemma C7_where_clause_witness :
  Build select_users_by_id =
    before_where select_users_by_id ++ buildWhere select_users_by_id ++
    after_where select_users_by_id /\
  buildWhere select_users_by_id = " WHERE u.id=5".
Proof.
  split.
  - apply (proj1 C7_where_clause select_users_by_id). reflexivity.
  - reflexivity.
Defined.

(** ** C8: the literal of a value *)

Lemma round_half_even_nearest (num den : Z) :
  0 < den -> 0 <= num -> nearest_even num den (round_half_even num den).
Proof.
  intros Hd Hn. unfold nearest_even, round_half_even.
  pose proof (Z.div_mod num den ltac:(lia)) as E.
  pose proof (Z.mod_pos_bound num den Hd) as B.
  set (q0 := num / den) in *. set (r := num mod den) in *.
  assert (P : den * q0 = q0 * den) by apply Z.mul_comm.
  destruct (2 * r <? den)%Z eqn:L1.
  - apply Z.ltb_lt in L1. split; [nia|]. intros [H|H]; nia.
  - apply Z.ltb_ge in L1. destruct (den <? 2 * r)%Z eqn:L2.
    + apply Z.ltb_lt in L2. split; [nia|]. intros [H|H]; nia.
    + apply Z.ltb_ge in L2. destruct (Z.even q0) eqn:Ev.
      * split; [nia|]. intros _. exact Ev.
      * split; [nia|]. intros _.
        rewrite Z.add_1_r, Z.even_succ, <- Z.negb_even, Ev. reflexivity.
Qed.

Lemma digits_acc_app (a b : string) : forall acc,
  digits_acc acc (a ++ b) = digits_acc (digits_acc acc a) b.
Proof.
  induction a as [|c a IH]; intros acc; [reflexivity|].
  change (String c a ++ b) with (String c (a ++ b)).
  cbn [digits_acc]. apply IH.
Qed.

Lemma digit_value_of_mod (z : Z) :
  Z.of_nat (nat_of_ascii (ascii_of_nat (48 + Z.to_nat (z mod 10)))) - 48 =
    z mod 10.
Proof.
  pose proof (Z.mod_pos_bound z 10 ltac:(lia)) as B.
  assert (C : z mod 10 = 0 \/ z mod 10 = 1 \/ z mod 10 = 2 \/ z mod 10 = 3 \/
              z mod 10 = 4 \/ z mod 10 = 5 \/ z mod 10 = 6 \/ z mod 10 = 7 \/
              z mod 10 = 8 \/ z mod 10 = 9) by lia.
  repeat (destruct C as [C|C]; [rewrite C; reflexivity|]).
  rewrite C; reflexivity.
Qed.

Lemma digits_fixed_value (k : nat) : forall z acc,
  digits_acc acc (digits_fixed k z) =
    acc * 10 ^ Z.of_nat k + z mod 10 ^ Z.of_nat k.
Proof.
  induction k as [|k IH]; intros z acc.
  - cbn [digits_fixed digits_acc]. change (10 ^ Z.of_nat 0) with 1.
    rewrite Z.mod_1_r. lia.
  - cbn [digits_fixed]. rewrite digits_acc_app, IH.
    cbn [digits_acc]. rewrite digit_value_of_mod.
    rewrite Nat2Z.inj_succ, Z.pow_succ_r by lia.
    rewrite (Z.rem_mul_r z 10 (10 ^ Z.of_nat k)) by lia.
    lia.
Qed.

Lemma fixed_text_literal (neg : bool) (q : Z) :
  exists ip fp,
    sign_text neg ++ fixed_text 8 q =
      (if neg then "-" else "") ++ ip ++ "." ++ fp /\
    NilZero.uint_of_string ip = Some (N.to_uint (Z.to_N (q / 10 ^ 8))) /\
    String.length fp = 8%nat /\ GoStrings.all_digits fp = true /\
    digits_value fp = q mod 10 ^ 8.
Proof.
  exists (FormatUint (q / 10 ^ 8)), (digits_fixed 8 (q mod 10 ^ 8)).
  split; [reflexivity|]. split; [apply FormatUint_reads_back|].
  split; [apply digits_fixed_length|]. split; [apply digits_fixed_digits|].
  unfold digits_value. rewrite digits_fixed_value.
  change (10 ^ Z.of_nat 8) with (10 ^ 8).
  rewrite Z.mod_mod by lia. lia.
Qed.

Lemma NaN_not_fixed (prec : nat) : fixed_notation prec "NaN" -> False.
Proof.
  intros (sg & ip & fp & E & [->| ->] & Hne & Hd & _).
  - destruct ip as [|c ip]; [contradiction|].
    cbn in E. injection E as <- _. discriminate Hd.
  - discriminate E.
Qed.

(** The text [NaN], which is what a NaN is written as, is not a numeral
    with eight decimals. *)
Lemma C8_nan_has_no_decimals :
  toString (VFloat64 S754_nan) = "NaN" /\
  (fixed_notation 8 (toString (VFloat64 S754_nan)) -> False).
Proof. split; [reflexivity | apply NaN_not_fixed]. Qed.

(** C8 (amended). [toString] writes every float that is a number, a zero
    or a finite value, in fixed notation with exactly eight decimals: a
    minus sign exactly when the sign bit is set, then the magnitude rounded
    to the nearest multiple of [10^-8], ties to even, as integer digits, a
    point and eight fraction digits. A NaN is written [NaN] and the
    infinities [+Inf] and [-Inf]. A 64-bit or native integer is written as
    its plain decimal numeral, and any other value, a string too, as its
    generic text between single quotes. *)
Theorem C8_value_formatting :
  (forall f : float64,
     match f with
     | S754_nan => toString (VFloat64 f) = "NaN"
     | S754_infinity neg =>
         toString (VFloat64 f) = (if neg then "-Inf" else "+Inf")
     | _ => float_literal f (toString (VFloat64 f)) /\
            fixed_notation 8 (toString (VFloat64 f))
     end) /\
  (forall n : Z,
     toString (VInt64 n) = FormatInt n /\ toString (VInt n) = FormatInt n /\
     decimal_numeral n (FormatInt n)) /\
  (forall v : value,
     bare_number v = false -> toString v = "'" ++ Sprint v ++ "'") /\
  (forall s : string, toString (VString s) = "'" ++ s ++ "'") /\
  (forall b : bool,
     toString (VBool b) = if b then "'true'" else "'false'") /\
  toString VNil = "'<nil>'".
Proof.
  split; [|split; [|split; [|split; [|split]]]].
  - intros f. destruct f as [neg|neg| |neg m e]; try reflexivity.
    + split; [|apply fixed_text_notation].
      cbn [toString FormatFloat_f].
      destruct (fixed_text_literal neg 0) as (ip & fp & E & R).
      exists 0, ip, fp. split; [exact E|]. split; [reflexivity|exact R].
    + split; [|apply fixed_text_notation].
      cbn [toString FormatFloat_f].
      destruct (fixed_text_literal neg (scaled 8 m e)) as (ip & fp & E & R).
      exists (scaled 8 m e), ip, fp. split; [exact E|]. split; [|exact R].
      cbn [magnitude_e8]. unfold scaled.
      change (10 ^ Z.of_nat 8) with (10 ^ 8).
      destruct (0 <=? e)%Z eqn:He; [reflexivity|].
      apply Z.leb_gt in He.
      apply round_half_even_nearest; [apply Z.pow_pos_nonneg|]; lia.
  - intros n. repeat split; try reflexivity. apply FormatInt_numeral.
  - intros v H. destruct v; try discriminate; reflexivity.
  - reflexivity.
  - intros []; reflexivity.
  - reflexivity.
Qed.

(** The theorem at a value that is no number, and the literals of three
    floats: one and a half; minus 1/512, which lies half way between two
    multiples of [10^-8] and goes to the even one; two thirds, rounded up. *)
Lemma C8_value_formatting_witness :
  toString (VBool true) = "'true'" /\
  toString (VFloat64 (S754_finite false 3 (-1))) = "1.50000000" /\
  toString (VFloat64 (S754_finite true 1 (-9))) = "-0.00195312" /\
  toString (VFloat64 (S754_finite false 6004799503160661 (-53))) = "0.66666667" /\
  toString (VInt64 (-42)) = "-42".
Proof.
  split; [|repeat split; vm_compute; reflexivity].
  apply (proj1 (proj2 (proj2 C8_value_formatting)) (VBool true)). reflexivity.
Defined.


(** * Further properties of the builder and of the repository's statements *)

(** ** The alias registry *)

Lemma lookup_after_register (sql : postgres) (t id t' : string) :
  getAliasBySource (addToSources t id sql) t' =
    if String.eqb t' t then (if String.eqb id "" then t else id)
    else getAliasBySource sql t'.
Proof.
  unfold getAliasBySource, addToSources. cbn [sources].
  destruct (String.eqb_spec t' t) as [->|Hne].
  - rewrite lookup_insert_eq. reflexivity.
  - rewrite lookup_insert_ne by congruence. reflexivity.
Qed.

(** Registering and looking up: the table just registered answers with its
    alias, or with its own name when the alias is the empty string; every
    other table answers as before. *)
Theorem alias_register_lookup (sql : postgres) (t id t' : string) :
  getAliasBySource (addToSources t id sql) t' =
    if String.eqb t' t then (if String.eqb id "" then t else id)
    else getAliasBySource sql t'.
Proof. apply lookup_after_register. Qed.

(** The lookup never fails: a table that was never registered answers with
    its own name, and a table with a name never answers with the empty
    string. *)
Theorem alias_lookup_total (sql : postgres) (source : string) :
  (sources sql !! source = None -> getAliasBySource sql source = source) /\
  (source <> "" -> getAliasBySource sql source <> "").
Proof.
  unfold getAliasBySource. split.
  - intros ->. reflexivity.
  - intros Hs. destruct (String.eqb_spec (default "" (sources sql !! source)) "");
      assumption.
Qed.

Lemma alias_lookup_total_witness :
  getAliasBySource fresh_builder "orders" = "orders" /\
  getAliasBySource (addToSources "orders" "" fresh_builder) "orders" <> "".
Proof.
  split.
  - apply (proj1 (alias_lookup_total fresh_builder "orders")). reflexivity.
  - apply (proj2 (alias_lookup_total (addToSources "orders" "" fresh_builder)
                    "orders")). discriminate.
Defined.

Lemma sources_apply_keeps_prefix (t : string) (c : call) (sql : postgres) :
  joins_source t c = false ->
  sources sql !! t = Some tablePrefix ->
  sources (apply_call c sql) !! t = Some tablePrefix.
Proof.
  intros Hc H. destruct c; cbn in *; try exact H.
  - destruct (String.eqb_spec tbl t) as [->|Hne].
    + apply lookup_insert_eq.
    + now rewrite lookup_insert_ne by assumption.
  - destruct (String.eqb_spec tbl t) as [->|Hne].
    + apply lookup_insert_eq.
    + now rewrite lookup_insert_ne by assumption.
  - apply String.eqb_neq in Hc. now rewrite lookup_insert_ne by assumption.
Qed.

Lemma sources_run_keeps_prefix (t : string) (cs : list call) : forall sql,
  forallb (fun c => negb (joins_source t c)) cs = true ->
  sources sql !! t = Some tablePrefix ->
  sources (run cs sql) !! t = Some tablePrefix.
Proof.
  induction cs as [|c cs IH]; intros sql Hcs H; [exact H|].
  cbn [forallb] in Hcs. apply andb_true_iff in Hcs as [Hc Hcs].
  change (run (c :: cs) sql) with (run cs (apply_call c sql)).
  apply IH; [assumption|].
  apply sources_apply_keeps_prefix; [|assumption].
  now destruct (joins_source t c).
Qed.

(** Once [From(t)] or [Update(t)] was called, the table [t] keeps the
    default alias through any later calls, as long as none of them is a
    [Join] whose joined source is [t] itself; such a [Join] replaces the
    alias of [t] by the name [t]. *)
Theorem primary_alias_kept (t : string) (cs : list call) (sql : postgres) :
  forallb (fun c => negb (joins_source t c)) cs = true ->
  getAliasBySource (run cs (From t sql)) t = tablePrefix /\
  getAliasBySource (run cs (Update t sql)) t = tablePrefix /\
  forall k tk ty fs,
    getAliasBySource (Join_ (mkJoin t k tk ty fs) (run cs (From t sql))) t = t.
Proof.
  intros Hcs.
  assert (A : forall b, sources b !! t = Some tablePrefix ->
                        getAliasBySource b t = tablePrefix).
  { intros b Hb. unfold getAliasBySource. rewrite Hb. reflexivity. }
  split; [|split].
  - apply A, sources_run_keeps_prefix; [assumption|].
    unfold From, addToSources. cbn [sources]. apply lookup_insert_eq.
  - apply A, sources_run_keeps_prefix; [assumption|].
    unfold Update, addToSources. cbn [sources]. apply lookup_insert_eq.
  - intros k tk ty fs. unfold Join_. cbn [Source].
    rewrite lookup_after_register, String.eqb_refl.
    now destruct (String.eqb_spec t "") as [->|].
Qed.

Lemma primary_alias_kept_witness :
  getAliasBySource
    (run [CSelect ["id"]; CJoin (mkJoin "orders" "uid" "id" "left" ["total"]);
          CWhere [("id", VInt 5)]; CFrom "audit"] (From "users" fresh_builder))
    "users" = "u".
Proof.
  apply (proj1 (primary_alias_kept "users"
    [CSelect ["id"]; CJoin (mkJoin "orders" "uid" "id" "left" ["total"]);
     CWhere [("id", VInt 5)]; CFrom "audit"] fresh_builder eq_refl)).
Defined.

(** ** Chains of configuration calls *)

Lemma run_cons c cs sql : run (c :: cs) sql = run cs (apply_call c sql).
Proof. reflexivity. Qed.

Lemma queryType_apply_kind c sql :
  sets_kind c = true -> queryType (apply_call c sql) = kind_of c.
Proof. destruct c; cbn; intros H; try discriminate; reflexivity. Qed.

(** [Build] renders the kind of the last call among [Select], [Insert],
    [Update], [Delete], whatever was called before it and whatever other
    calls follow it. *)
Theorem build_dispatches_on_last_kind (cs rest : list call) (c : call)
    (sql : postgres) :
  sets_kind c = true ->
  forallb (fun c' => negb (sets_kind c')) rest = true ->
  let b := run (cs ++ c :: rest) sql in
  queryType b = kind_of c /\
  Build b = match c with
            | CSelect _ => fst (buildSelect b)
            | CInsert _ => buildInsert b
            | CUpdate _ => buildUpdate b
            | CDelete => buildDelete b
            | _ => ""
            end.
Proof.
  intros Hc Hrest b.
  assert (Q : queryType b = kind_of c).
  { subst b. rewrite run_app, run_cons.
    rewrite queryType_run_other by assumption.
    now apply queryType_apply_kind. }
  split; [exact Q|].
  destruct c; try discriminate; cbn [kind_of] in Q.
  - now apply Build_select.
  - now apply Build_insert.
  - now apply Build_update.
  - now apply Build_delete.
Qed.

Lemma build_dispatches_on_last_kind_witness :
  Build (run ([CSelect ["id"]; CFrom "users"] ++ CDelete ::
              [CWhere [("id", VInt 5)]; CLimit 10 0]) fresh_builder) =
    "DELETE FROM  users as u WHERE u.id=5".
Proof.
  rewrite (proj2 (build_dispatches_on_last_kind
                    [CSelect ["id"]; CFrom "users"]
                    [CWhere [("id", VInt 5)]; CLimit 10 0] CDelete
                    fresh_builder eq_refl eq_refl)).
  vm_compute. reflexivity.
Defined.

Lemma fields_apply c sql :
  fields (parts_ (apply_call c sql)) =
    (fields (parts_ sql) ++ selected_fields [c])%list.
Proof. destruct c; cbn; now rewrite ?app_nil_r. Qed.

(** The fields of a builder only grow: after any chain of calls they are
    the fields it had, followed by the fields of every [Select] call of the
    chain in call order. A builder used for a second SELECT projects the
    fields of the first one too. *)
Theorem fields_accumulate (cs : list call) : forall sql : postgres,
  fields (parts_ (run cs sql)) =
    (fields (parts_ sql) ++ selected_fields cs)%list.
Proof.
  induction cs as [|c cs IH]; intros sql.
  - cbn. now rewrite app_nil_r.
  - rewrite run_cons, IH, fields_apply.
    unfold selected_fields. cbn [flat_map].
    now rewrite app_nil_r, <- app_assoc.
Qed.

Lemma where_apply c sql :
  where_ (parts_ (apply_call c sql)) = last_where [c] (where_ (parts_ sql)).
Proof. destruct c; reflexivity. Qed.

(** The predicate map is replaced, never merged: after any chain of calls
    it is the map of the last [Where] call of the chain, or the one the
    builder had when the chain has no [Where]. *)
Theorem where_last_call_wins (cs : list call) : forall sql : postgres,
  where_ (parts_ (run cs sql)) = last_where cs (where_ (parts_ sql)).
Proof.
  induction cs as [|c cs IH]; intros sql; [reflexivity|].
  rewrite run_cons, IH, where_apply. reflexivity.
Qed.

(** ** The clauses of a SELECT *)

(** The projection of a SELECT is never empty: it is the builder's fields,
    or the single wildcard when there are none, each under the table's
    alias, followed by every join's fields under the joined source; the
    items are joined with a comma and a blank. A SELECT without fields is
    the same text as a SELECT of the wildcard. *)
Theorem select_projection (q : string) (p : parts) (srcs : gmap string string) :
  let sql := mkPostgres q p srcs in
  fst (buildFields sql) = " " ++ GoStrings.Join (projection sql) ", " /\
  projection sql <> [] /\
  List.length (projection sql) =
    (Nat.max 1 (List.length (fields p)) +
     list_sum (map (fun j => List.length (Fields j)) (join p)))%nat /\
  fst (buildSelect (mkPostgres q (set_fields [] p) srcs)) =
    fst (buildSelect (mkPostgres q (set_fields ["*"] p) srcs)).
Proof.
  intros sql. split; [|split; [|split]].
  - unfold buildFields, projection. subst sql.
    destruct p as [t fs w js os l o d r]. destruct fs; reflexivity.
  - unfold projection. subst sql. cbn [parts_ fields].
    destruct (fields p); discriminate.
  - unfold projection. subst sql. cbn [parts_ fields join].
    rewrite length_app, length_map. f_equal.
    + destruct (fields p); cbn [List.length]; lia.
    + induction (join p) as [|j js IH]; [reflexivity|].
      cbn [flat_map map list_sum]. now rewrite length_app, length_map, IH.
  - reflexivity.
Qed.

Lemma fold_left_append {A} (f : A -> string) (l : list A) : forall init,
  fold_left (fun acc a => acc ++ f a) l init =
    init ++ fold_left (fun acc a => acc ++ f a) l "".
Proof.
  induction l as [|a l IH]; intros init; cbn [fold_left].
  - now rewrite append_nil_r.
  - rewrite IH, (IH ("" ++ f a)). cbn [String.append].
    now rewrite append_assoc.
Qed.

Lemma ToUpper_idempotent (s : string) :
  GoStrings.ToUpper (GoStrings.ToUpper s) = GoStrings.ToUpper s.
Proof.
  induction s as [|c s IH]; [reflexivity|].
  cbn [GoStrings.ToUpper]. rewrite IH. f_equal.
  destruct c as [[] [] [] [] [] [] [] []]; reflexivity.
Qed.

Lemma ToUpper_no_lower (s : string) :
  GoStrings.has_lower (GoStrings.ToUpper s) = false.
Proof.
  induction s as [|c s IH]; [reflexivity|].
  cbn [GoStrings.ToUpper GoStrings.has_lower]. rewrite IH, orb_false_r.
  destruct c as [[] [] [] [] [] [] [] []]; reflexivity.
Qed.

Lemma ToUpper_length (s : string) :
  String.length (GoStrings.ToUpper s) = String.length s.
Proof.
  induction s as [|c s IH]; [reflexivity|].
  cbn [GoStrings.ToUpper String.length]. now rewrite IH.
Qed.

(** The JOIN clauses follow each other in the order the joins were added,
    with nothing between them: the text for two lists of joins one after
    the other is the text of the first followed by the text of the second,
    and no join gives no text. One join gives
    [ KIND JOIN source AS source ON source.key = alias.targetKey], the
    kind being the upper-cased join kind. For an ASCII join kind the
    upper-cased kind has no lower-case letter and the length of the kind,
    and the kind and its upper-case spelling give the same clause. *)
Theorem joins_render_in_order (q : string) (p : parts)
    (srcs : gmap string string) (l1 l2 : list Join) :
  let with_joins l := mkPostgres q (set_join l p) srcs in
  buildJoin (with_joins (l1 ++ l2)%list) =
    buildJoin (with_joins l1) ++ buildJoin (with_joins l2) /\
  buildJoin (with_joins []) = "" /\
  (forall src k tk ty fs,
     buildJoin (with_joins [mkJoin src k tk ty fs]) =
       " " ++ GoStrings.ToUpper ty ++ " JOIN " ++ src ++ " AS " ++ src ++
       " ON " ++ src ++ "." ++ k ++ " = " ++
       alias_of srcs (table p) ++ "." ++ tk) /\
  (forall src k tk ty fs,
     GoStrings.is_ascii ty = true ->
     GoStrings.has_lower (GoStrings.ToUpper ty) = false /\
     String.length (GoStrings.ToUpper ty) = String.length ty /\
     buildJoin (with_joins [mkJoin src k tk (GoStrings.ToUpper ty) fs]) =
       buildJoin (with_joins [mkJoin src k tk ty fs])).
Proof.
  intros with_joins.
  assert (F : forall l, buildJoin (with_joins l) =
                fold_left (fun acc j => acc ++ joinClause (with_joins []) j) l "").
  { intros l. unfold buildJoin. subst with_joins. cbn [parts_ join set_join].
    destruct l; reflexivity. }
  split; [|split; [|split]].
  - rewrite !F, fold_left_app. apply fold_left_append.
  - reflexivity.
  - intros src k tk ty fs. rewrite F. cbn [fold_left]. unfold joinClause.
    cbn [Type_ Source Key TargetKey].
    rewrite alias_of_spec. subst with_joins. cbn [sources parts_ table set_join].
    change ("" ++ ?x) with x.
    rewrite !append_assoc. reflexivity.
  - intros src k tk ty fs _. split; [apply ToUpper_no_lower|].
    split; [apply ToUpper_length|].
    rewrite !F. cbn [fold_left]. unfold joinClause.
    cbn [Type_ Source Key TargetKey].
    now rewrite ToUpper_idempotent.
Qed.

Lemma joins_render_in_order_witness :
  buildJoin
    (Join_ (mkJoin "items" "order_id" "id" "inner" [])
      (Join_ (mkJoin "orders" "uid" "id" "left" ["total"])
        (From "users" fresh_builder))) =
    " LEFT JOIN orders AS orders ON orders.uid = u.id" ++
    " INNER JOIN items AS items ON items.order_id = u.id".
Proof.
  eapply eq_trans.
  - exact (proj1 (joins_render_in_order "" (set_table "users" zero_parts)
             (<["items" := "items"]> (<["orders" := "orders"]>
                (<["users" := "u"]> ∅)))
             [mkJoin "orders" "uid" "id" "left" ["total"]]
             [mkJoin "items" "order_id" "id" "inner" []])).
  - vm_compute. reflexivity.
Defined.

Lemma Contains_single_char (c : ascii) (s : string) :
  GoStrings.Contains s (String c "") = GoStrings.occurs c s.
Proof.
  unfold GoStrings.Contains. rewrite Index_single_char. apply negb_involutive.
Qed.

(** The ORDER BY clause is there exactly when an ordering term was added;
    it has one item per term, in the order added, joined by commas. An
    item is the column, under the table's alias unless the column has a dot
    in it, followed by [ ASC] when the ascending flag is set and then by
    [ DESC] when the descending flag is set: both for both, none for none. *)
Theorem order_by_clause (sql : postgres) :
  (buildOrderBy sql = "" <-> order (parts_ sql) = []) /\
  (order (parts_ sql) <> [] ->
   buildOrderBy sql =
     " ORDER BY " ++ GoStrings.Join (map (orderItem sql) (order (parts_ sql))) ",") /\
  (forall col asc desc,
     orderItem sql (mkOrderParam col asc desc) =
       (if GoStrings.occurs "." col then col
        else getAliasBySource sql (table (parts_ sql)) ++ "." ++ col) ++
       (if asc then " ASC" else "") ++ (if desc then " DESC" else "")).
Proof.
  split; [|split].
  - unfold buildOrderBy. destruct (order (parts_ sql)) as [|o os].
    + cbn. tauto.
    + cbn [List.length Nat.ltb Nat.leb]. split; discriminate.
  - intros H. unfold buildOrderBy.
    destruct (order (parts_ sql)); [contradiction|reflexivity].
  - intros col asc desc. unfold orderItem. cbn [OrderBy Asc Desc].
    rewrite Contains_single_char.
    destruct (GoStrings.occurs "." col), asc, desc; cbn [negb];
      rewrite ?append_nil_r, ?append_assoc; reflexivity.
Qed.

Lemma order_by_clause_witness :
  buildOrderBy (Order (mkOrderParam "o.total" true true)
                 (Order (mkOrderParam "name" false false)
                   (From "users" fresh_builder))) =
    " ORDER BY u.name,o.total ASC DESC".
Proof.
  rewrite (proj1 (proj2 (order_by_clause _))) by discriminate.
  vm_compute. reflexivity.
Defined.

Lemma select_limit_split (p : parts) (srcs : gmap string string) (l o : Z) :
  let sql := mkPostgres queryTypeSelect p srcs in
  Build (Limit l o sql) =
    Build (Limit 0 0 sql) ++
    (if (l =? 0)%Z then ""
     else " LIMIT " ++ Itoa l ++ " OFFSET " ++ Itoa o).
Proof.
  intros sql. rewrite !Build_select by reflexivity.
  unfold buildSelect.
  assert (E : forall l' o', buildFields (Limit l' o' sql) =
              (fst (buildFields sql), Limit l' o' (snd (buildFields sql)))).
  { intros l' o'. unfold buildFields. subst sql. cbn [parts_ fields Limit set_limit set_parts].
    destruct (List.length (fields p) =? 0)%nat; reflexivity. }
  rewrite !E. cbn [fst].
  set (sql' := snd (buildFields sql)).
  change (buildFrom (Limit l o sql') true) with (buildFrom (Limit 0 0 sql') true).
  change (buildJoin (Limit l o sql')) with (buildJoin (Limit 0 0 sql')).
  change (buildWhere (Limit l o sql')) with (buildWhere (Limit 0 0 sql')).
  change (buildOrderBy (Limit l o sql')) with (buildOrderBy (Limit 0 0 sql')).
  change (buildLimit (Limit 0 0 sql')) with "".
  change (buildLimit (Limit l o sql'))
    with (if negb (l =? 0)%Z then " LIMIT " ++ Itoa l ++ " OFFSET " ++ Itoa o else "").
  rewrite !append_nil_r, !append_assoc.
  destruct (l =? 0)%Z; cbn [negb]; now rewrite ?append_nil_r.
Qed.

(** The LIMIT clause is the end of a SELECT and is written only for a limit
    other than zero: with limit zero the offset is dropped, whatever it is. *)
Theorem select_limit_suffix (p : parts) (srcs : gmap string string) (l o : Z) :
  let sql := mkPostgres queryTypeSelect p srcs in
  Build (Limit l o sql) =
    Build (Limit 0 0 sql) ++
    (if (l =? 0)%Z then ""
     else " LIMIT " ++ Itoa l ++ " OFFSET " ++ Itoa o).
Proof. apply select_limit_split. Qed.

(** ** INSERT, UPDATE and DELETE *)

Lemma whereTerm_scalar (sql : postgres) (key : string) (v : value) :
  in_list_value v = false ->
  whereTerm sql key v =
    getAliasBySource sql (table (parts_ sql)) ++ "." ++ key ++
    whereSign key ++ toString v.
Proof. destruct v; intros H; try discriminate; reflexivity. Qed.

Lemma map_key_text (m : gomap) :
  map (fun kv : string * value => "" ++ fst kv ++ "") m = map fst m.
Proof.
  induction m as [|kv m IH]; [reflexivity|].
  cbn [map]. rewrite IH. cbn [String.append]. now rewrite append_nil_r.
Qed.

(** An INSERT is [INSERT INTO], the table, the columns between brackets,
    [VALUES], the literals between brackets, and [RETURNING] with the
    column when one was asked for. The i-th column and the i-th literal
    come from the same payload entry, whatever the order the entries are
    visited in; a payload that is not a map gives empty brackets. The text
    depends on the table, the payload and the returning column only: not
    on aliases, fields, predicates, joins, ordering or pagination. *)
Theorem insert_statement (p : parts) (srcs : gmap string string) :
  let sql := mkPostgres queryTypeInsert p srcs in
  let es := payload_entries (insertData p) in
  let cols := map fst es in
  let vals := map (fun kv => toString (snd kv)) es in
  Build sql =
    "INSERT INTO " ++ table p ++ "(" ++ GoStrings.Join cols "," ++
    ") VALUES (" ++ GoStrings.Join vals "," ++ ")" ++
    (if String.eqb (returnID p) "" then "" else " RETURNING " ++ returnID p) /\
  (forall i k v, nth_error es i = Some (k, v) ->
     nth_error cols i = Some k /\ nth_error vals i = Some (toString v)) /\
  (forall p' srcs',
     table p' = table p -> insertData p' = insertData p ->
     returnID p' = returnID p ->
     Build (mkPostgres queryTypeInsert p' srcs') = Build sql).
Proof.
  intros sql es cols vals. split; [|split].
  - rewrite Build_insert by reflexivity.
    unfold buildInsert, buildValues. subst sql. cbn [parts_].
    fold (payload_entries (insertData p)). fold es.
    rewrite map_key_text. fold cols. fold vals.
    destruct (String.eqb (returnID p) ""); cbn [negb];
      rewrite ?append_nil_r, ?append_assoc; reflexivity.
  - intros i k v H. split.
    + now apply (map_nth_error fst) in H.
    + now apply (map_nth_error (fun kv => toString (snd kv))) in H.
  - intros p' srcs' Ht Hd Hr. rewrite !Build_insert by reflexivity.
    unfold buildInsert, buildValues. subst sql. cbn [parts_].
    now rewrite Ht, Hd, Hr.
Qed.

(** An UPDATE that has predicates is [UPDATE], the table with its alias,
    [ SET ] with one [column = literal] term per payload entry joined by a
    comma and a blank, and the WHERE clause with one term per predicate. A
    payload that is not a map leaves nothing after [ SET ]. *)
Theorem update_statement_with_predicates (p : parts)
    (srcs : gmap string string) :
  where_ p <> [] ->
  let sql := mkPostgres queryTypeUpdate p srcs in
  let es := payload_entries (insertData p) in
  Build sql =
    "UPDATE " ++ table p ++ " as " ++ getAliasBySource sql (table p) ++
    " SET " ++
    GoStrings.Join (map (fun kv => fst kv ++ " = " ++ toString (snd kv)) es) ", " ++
    " WHERE " ++ GoStrings.Join (whereTerms sql) " AND " /\
  List.length (map (fun kv => fst kv ++ " = " ++ toString (snd kv)) es) =
    List.length es /\
  List.length (whereTerms sql) = List.length (where_ p).
Proof.
  intros Hw sql es. split; [|split].
  - rewrite Build_update by reflexivity.
    unfold buildUpdate, buildTable, buildSetter, buildWhere, setterTerms.
    subst sql es. unfold payload_entries. cbn [parts_ negb].
    destruct (where_ p) as [|kv w] eqn:E; [contradiction|].
    cbn [List.length Nat.eqb].
    destruct (asMap (insertData p));
      rewrite ?append_assoc; cbn [String.append];
      rewrite ?append_assoc; reflexivity.
  - apply length_map.
  - unfold whereTerms. subst sql. cbn [parts_]. apply length_map.
Qed.

Lemma update_statement_with_predicates_witness :
  Build (Where [("id", VInt 1)]
          (Set_ (DataValue (VInt 7)) (Update "t" fresh_builder))) =
    "UPDATE t as u SET  WHERE u.id=1".
Proof.
  eapply eq_trans.
  - exact (proj1 (update_statement_with_predicates
                    (mkParts "t" [] [("id", VInt 1)] [] [] 0 0
                             (DataValue (VInt 7)) "")
                    (<["t" := "u"]> ∅) ltac:(discriminate))).
  - vm_compute. reflexivity.
Defined.

(** The statements of the repository's [Delete] and [DeleteByID]: with an
    empty query [Delete] sends a DELETE with no WHERE clause at all; with
    entries, one term per entry under the default alias; [DeleteByID] with
    an id that is not a sequence of 64-bit integers or of strings compares
    the column [id] with the literal of the id. *)
Theorem repository_delete_statements (source : string) :
  Repository.Delete_SQL source [] = "DELETE FROM  " ++ source ++ " as u" /\
  (forall kv q,
     Repository.Delete_SQL source (kv :: q) =
       "DELETE FROM  " ++ source ++ " as u WHERE " ++
       GoStrings.Join
         (map (fun e => whereTerm (From source fresh_builder) (fst e) (snd e))
              (kv :: q)) " AND ") /\
  (forall id,
     in_list_value id = false ->
     Repository.DeleteByID_SQL source id =
       "DELETE FROM  " ++ source ++ " as u WHERE u.id=" ++ toString id).
Proof.
  assert (A : getAliasBySource (From source fresh_builder) source = "u").
  { unfold From. rewrite lookup_after_register, String.eqb_refl. reflexivity. }
  assert (D : forall q,
    Repository.Delete_SQL source q =
      "DELETE FROM  " ++ source ++ " as u" ++
      buildWhere (Where q (From source fresh_builder))).
  { intros q. unfold Repository.Delete_SQL.
    rewrite Build_delete by reflexivity.
    unfold buildDelete, buildFrom, buildTable. cbn [negb].
    change (getAliasBySource _ (table _))
      with (getAliasBySource (From source fresh_builder) source).
    rewrite A. cbn [parts_ table Where From Delete set_parts set_table
                    set_where set_queryType addToSources fresh_builder zero_parts].
    rewrite !append_assoc. reflexivity. }
  split; [|split].
  - rewrite D. reflexivity.
  - intros kv q. rewrite D. reflexivity.
  - intros id Hid. unfold Repository.DeleteByID_SQL.
    change (Build (Where [("id", id)] (From source (Delete fresh_builder))))
      with (Repository.Delete_SQL source [("id", id)]).
    rewrite D. unfold buildWhere, whereTerms.
    cbn [parts_ where_ Where set_where set_parts List.length Nat.eqb map
         GoStrings.Join fst snd].
    rewrite (whereTerm_scalar _ "id" id Hid).
    change (whereSign "id") with "=".
    change (getAliasBySource _ (table _))
      with (getAliasBySource (From source fresh_builder) source).
    rewrite A. reflexivity.
Qed.

Lemma repository_delete_statements_witness :
  Repository.DeleteByID_SQL "users" (VString "a1") =
    "DELETE FROM  users as u WHERE u.id='a1'".
Proof.
  eapply eq_trans.
  - exact (proj2 (proj2 (repository_delete_statements "users"))
             (VString "a1") eq_refl).
  - reflexivity.
Defined.

(** ** The parameters and the statement of [fetch] *)

Ltac builder_cbn :=
  cbn [parts_ fields where_ join order limit offset table insertData returnID
       sources queryType Limit Where From Select Delete Update
       set_parts set_fields set_where set_limit set_table set_queryType
       set_join set_order addToSources fresh_builder zero_parts
       app List.length Nat.eqb Nat.ltb Nat.leb fst snd map flat_map negb
       fold_left].

(** [parseParams] gives the zero modificator for nil params and for params
    that are not a [map[string]interface{}]. For such a map it panics
    exactly when [fields] holds something other than nil or a sequence of
    strings, or [skip] or [limit] something other than nil or a native
    integer (a 64-bit integer under [limit] is such a case); otherwise each
    part is the value under its key, or zero when the key is missing or
    holds nil. *)
Theorem parseParams_behaviour :
  Repository.parseParams DataNil = Some Repository.zero_modificator /\
  (forall v, Repository.parseParams (DataValue v) =
               Some Repository.zero_modificator) /\
  (forall p,
     Repository.parseParams (DataMap p) =
       if well_typed_params p
       then Some (Repository.mkQueryModificator
                    (strings_of (Repository.index p "fields"))
                    (int_of (Repository.index p "skip"))
                    (int_of (Repository.index p "limit")))
       else None) /\
  (forall p n, Repository.index p "limit" = VInt64 n ->
     Repository.parseParams (DataMap p) = None).
Proof.
  assert (M : forall p,
     Repository.parseParams (DataMap p) =
       if well_typed_params p
       then Some (Repository.mkQueryModificator
                    (strings_of (Repository.index p "fields"))
                    (int_of (Repository.index p "skip"))
                    (int_of (Repository.index p "limit")))
       else None).
  { intros p. unfold Repository.parseParams, well_typed_params.
    destruct (Repository.index p "fields"), (Repository.index p "skip"),
             (Repository.index p "limit"); reflexivity. }
  split; [reflexivity|]. split; [reflexivity|]. split; [exact M|].
  intros p n H. rewrite M. unfold well_typed_params. rewrite H.
  cbn [int_or_nil]. now rewrite andb_false_r.
Qed.

Lemma parseParams_behaviour_witness :
  Repository.parseParams
    (DataMap [("fields", VStrings ["id"]); ("limit", VInt64 10)]) = None.
Proof.
  apply (proj2 (proj2 (proj2 parseParams_behaviour))
           [("fields", VStrings ["id"]); ("limit", VInt64 10)] 10).
  reflexivity.
Defined.

(** [fetch] always sends a SELECT, and replaces a limit of zero (or no
    limit in the params) by [defaultLimit]: its statement is the SELECT
    without pagination followed by [ LIMIT n OFFSET s], where [n] is the
    limit of the params, or [defaultLimit] when that is zero, and [s] the
    skip; so with a [defaultLimit] other than zero every statement of
    [fetch] is capped. When [parseParams] panics there is no statement. *)
Theorem fetch_statement (defaultLimit : Z) (modelFields : list string)
    (source : string) (query : gomap) (params : data) :
  match Repository.parseParams params with
  | None => Repository.fetch_SQL defaultLimit modelFields source query params = None
  | Some m =>
      let n := if (Repository.limit m =? 0)%Z then defaultLimit
               else Repository.limit m in
      let b := Repository.fetch_builder defaultLimit modelFields source query m in
      queryType b = queryTypeSelect /\
      Repository.fetch_SQL defaultLimit modelFields source query params =
        Some (Build (Limit 0 0 b) ++
              (if (n =? 0)%Z then ""
               else " LIMIT " ++ Itoa n ++ " OFFSET " ++ Itoa (Repository.skip m))) /\
      (defaultLimit <> 0 -> n <> 0)
  end.
Proof.
  unfold Repository.fetch_SQL.
  destruct (Repository.parseParams params) as [m|]; [|reflexivity].
  cbv zeta. split; [reflexivity|]. split.
  - f_equal. unfold Repository.fetch_builder.
    set (n := if (Repository.limit m =? 0)%Z then defaultLimit
              else Repository.limit m).
    set (fs := if (List.length (Repository.fields m) =? 0)%nat
               then modelFields else Repository.fields m).
    exact (select_limit_split
             (parts_ (Where query (From source (Select fs fresh_builder))))
             (sources (Where query (From source (Select fs fresh_builder))))
             n (Repository.skip m)).
  - intros Hd.
    destruct (Repository.limit m =? 0)%Z eqn:E; [assumption|].
    now apply Z.eqb_neq.
Qed.

(** The statement of [FindByID] for an id that is not a sequence of 64-bit
    integers or of strings: the model's fields (the wildcard when it has
    none) under the default alias, the table, the comparison of the column
    [id] with the literal of the id, and [ LIMIT defaultLimit OFFSET 0]
    unless [defaultLimit] is zero. *)
Theorem find_by_id_statement (defaultLimit : Z) (modelFields : list string)
    (source : string) (id : value) :
  in_list_value id = false ->
  Repository.FindByID_SQL defaultLimit modelFields source id =
    Some ("SELECT " ++
          GoStrings.Join
            (map (fun f => "u." ++ f)
                 (match modelFields with [] => ["*"] | fs => fs end)) ", " ++
          " FROM  " ++ source ++ " as u WHERE u.id=" ++ toString id ++
          (if (defaultLimit =? 0)%Z then ""
           else " LIMIT " ++ Itoa defaultLimit ++ " OFFSET 0")).
Proof.
  intros Hid.
  assert (A : getAliasBySource (From source fresh_builder) source = "u").
  { unfold From. rewrite lookup_after_register, String.eqb_refl. reflexivity. }
  unfold Repository.FindByID_SQL, Repository.fetch_SQL.
  cbn [Repository.parseParams]. f_equal.
  unfold Repository.fetch_builder.
  cbn [Repository.fields Repository.limit Repository.skip
       Repository.zero_modificator List.length Nat.eqb Z.eqb].
  rewrite Build_select by reflexivity.
  unfold buildSelect, buildFields, buildFrom, buildTable, buildJoin,
    buildWhere, buildOrderBy, buildLimit, whereTerms.
  destruct modelFields as [|f fs]; builder_cbn;
    rewrite (whereTerm_scalar _ "id" id Hid);
    change (whereSign "id") with "=";
    builder_cbn;
    change (getAliasBySource _ source)
      with (getAliasBySource (From source fresh_builder) source);
    rewrite A;
    destruct (defaultLimit =? 0)%Z; cbn [negb];
    rewrite ?app_nil_r, ?append_nil_r, ?append_assoc; cbn [String.append];
    rewrite ?append_assoc; reflexivity.
Qed.

Lemma find_by_id_statement_witness :
  Repository.FindByID_SQL 100 ["id"; "name"] "users" (VInt 7) =
    Some "SELECT u.id, u.name FROM  users as u WHERE u.id=7 LIMIT 100 OFFSET 0".
Proof.
  eapply eq_trans.
  - exact (find_by_id_statement 100 ["id"; "name"] "users" (VInt 7) eq_refl).
  - reflexivity.
Defined.

Lemma fetch_statement_witness :
  Repository.fetch_SQL 100 ["id"] "users" [("age>", VInt 30)]
    (DataMap [("skip", VInt 20)]) =
    Some "SELECT u.id FROM  users as u WHERE u.age>30 LIMIT 100 OFFSET 20".
Proof.
  pose proof (fetch_statement 100 ["id"] "users" [("age>", VInt 30)]
                (DataMap [("skip", VInt 20)])) as H.
  cbn [Repository.parseParams] in H. cbv zeta in H.
  destruct H as (_ & H & _). rewrite H. reflexivity.
Defined.

(** ** The helper [formatValue] beside the predicate renderer *)

(** For a sequence of 64-bit integers or of strings the predicate term is
    the qualified key followed by what the unused helper [formatValue]
    gives for the sequence; for a string it never is: the helper puts
    [= ] before the quoted text, the renderer [=] or nothing. *)
Theorem formatValue_beside_whereTerm (sql : postgres) (key : string) :
  (forall l : list Z,
     whereTerm sql key (VInt64s l) =
       getAliasBySource sql (table (parts_ sql)) ++ "." ++ key ++
       formatValue (VInt64s l)) /\
  (forall l : list string,
     whereTerm sql key (VStrings l) =
       getAliasBySource sql (table (parts_ sql)) ++ "." ++ key ++
       formatValue (VStrings l)) /\
  (forall s : string,
     whereTerm sql key (VString s) <>
       getAliasBySource sql (table (parts_ sql)) ++ "." ++ key ++
       formatValue (VString s)).
Proof.
  split; [|split]; try reflexivity.
  intros s H.
  rewrite whereTerm_scalar in H by reflexivity.
  apply String.app_inj in H. apply (String.app_inj ".") in H.
  apply String.app_inj in H.
  rewrite whereSign_spec in H.
  destruct (carries_operator key); discriminate.
Qed.

(** ** The order in which a map is visited *)

Lemma Join_length (sep : string) (l : list string) :
  l <> [] ->
  (String.length (GoStrings.Join l sep) + String.length sep)%nat =
    total_length sep l.
Proof.
  unfold total_length, list_sum.
  induction l as [|e l IH]; intros H; [contradiction|].
  destruct l as [|e' l].
  - cbn [map fold_right GoStrings.Join]. lia.
  - change (GoStrings.Join (e :: e' :: l) sep)
      with (e ++ sep ++ GoStrings.Join (e' :: l) sep).
    rewrite !length_append. cbn [map fold_right] in *.
    specialize (IH ltac:(discriminate)). lia.
Qed.

Lemma total_length_perm (sep : string) (l l' : list string) :
  Permutation l l' -> total_length sep l = total_length sep l'.
Proof.
  unfold total_length, list_sum.
  induction 1; cbn [map fold_right]; lia.
Qed.

(** The runtime may visit the predicate map in any order: two orders give
    the same predicate terms up to their order, and WHERE clauses of the
    same length. *)
Theorem where_clause_any_visit_order (q : string) (p : parts)
    (srcs : gmap string string) (w w' : gomap) :
  Permutation w w' ->
  let visit w0 := mkPostgres q (set_where w0 p) srcs in
  Permutation (whereTerms (visit w)) (whereTerms (visit w')) /\
  String.length (buildWhere (visit w)) = String.length (buildWhere (visit w')).
Proof.
  intros P visit.
  assert (T : Permutation (whereTerms (visit w)) (whereTerms (visit w'))).
  { unfold whereTerms. subst visit. cbn [parts_ where_ set_where].
    change (fun kv : string * value =>
              whereTerm (mkPostgres q (set_where w p) srcs) (fst kv) (snd kv))
      with (fun kv : string * value =>
              whereTerm (mkPostgres q (set_where w' p) srcs) (fst kv) (snd kv)).
    now apply Permutation_map. }
  split; [exact T|].
  unfold buildWhere. subst visit. cbn [parts_ where_ set_where].
  rewrite <- (Permutation_length P).
  destruct w as [|kv w0].
  - reflexivity.
  - cbn [List.length Nat.eqb]. rewrite !length_append. f_equal.
    assert (N : forall w1, w1 <> [] ->
              whereTerms (mkPostgres q (set_where w1 p) srcs) <> []).
    { intros [|x w1] Hw; [contradiction|discriminate]. }
    pose proof (Join_length " AND " _ (N (kv :: w0) ltac:(discriminate))) as L1.
    assert (Hw' : w' <> []).
    { intros ->. apply Permutation_sym, Permutation_nil in P. discriminate. }
    pose proof (Join_length " AND " _ (N w' Hw')) as L2.
    pose proof (total_length_perm " AND " _ _ T) as E.
    lia.
Qed.

Lemma where_clause_any_visit_order_witness :
  String.length
    (buildWhere (mkPostgres "SELECT"
       (set_where [("id", VInt 5); ("name", VString "x")] zero_parts) ∅)) =
  String.length
    (buildWhere (mkPostgres "SELECT"
       (set_where [("name", VString "x"); ("id", VInt 5)] zero_parts) ∅)).
Proof.
  apply (proj2 (where_clause_any_visit_order "SELECT" zero_parts ∅
                  [("id", VInt 5); ("name", VString "x")]
                  [("name", VString "x"); ("id", VInt 5)]
                  (perm_swap _ _ []))).
Defined.

(** ** Calls that assign different parts *)

(** Two configuration calls that assign no common part of the builder can
    be made in either order: the builder, and so the text [Build] returns,
    is the same. *)
Theorem independent_calls_commute (c1 c2 : call) (sql : postgres) :
  shares_part c1 c2 = false ->
  apply_call c1 (apply_call c2 sql) = apply_call c2 (apply_call c1 sql) /\
  Build (run [c1; c2] sql) = Build (run [c2; c1] sql).
Proof.
  intros H.
  assert (E : apply_call c1 (apply_call c2 sql) =
              apply_call c2 (apply_call c1 sql))
    by (destruct c1, c2; try discriminate H; reflexivity).
  split; [exact E|]. cbn [run fold_left]. now rewrite E.
Qed.

Lemma independent_calls_commute_witness :
  Build (run [CWhere [("id", VInt 5)]; CFrom "users"]
             (Select ["id"] fresh_builder)) =
  Build (run [CFrom "users"; CWhere [("id", VInt 5)]]
             (Select ["id"] fresh_builder)).
Proof.
  apply (proj2 (independent_calls_commute (CWhere [("id", VInt 5)])
                  (CFrom "users") (Select ["id"] fresh_builder) eq_refl)).
Defined.

(** ** Literals of numbers *)

(** The literal of a 64-bit or native integer reads back as that integer:
    no two integers share a literal, and the two integer types give the
    same literal for the same number. *)
Theorem integer_literal_reads_back (n : Z) :
  option_map Z.of_int (NilZero.int_of_string (toString (VInt64 n))) = Some n /\
  toString (VInt n) = toString (VInt64 n).
Proof.
  split; [|reflexivity].
  cbn [toString]. rewrite FormatInt_string_of_int.
  destruct (to_int_not_nil n) as [P N].
  rewrite NilZero.isi by assumption.
  cbn [option_map]. f_equal. apply DecimalZ.of_to.
Qed.

(** A float closer to zero than half of [10^-8] is written as zero, with
    its sign: [0.00000000] or [-0.00000000]. *)
Theorem tiny_float_literal_is_zero (neg : bool) (m : positive) (e : Z) :
  e < 0 -> 2 * (Z.pos m * 10 ^ 8) < 2 ^ (- e) ->
  toString (VFloat64 (S754_finite neg m e)) =
    (if neg then "-" else "") ++ "0.00000000".
Proof.
  intros He Hm.
  cbn [toString FormatFloat_f]. unfold scaled.
  change (10 ^ Z.of_nat 8) with (10 ^ 8).
  destruct (0 <=? e)%Z eqn:E; [apply Z.leb_le in E; lia|].
  assert (P : 0 < Z.pos m * 10 ^ 8) by lia.
  unfold round_half_even.
  rewrite Z.div_small, Z.mod_small by lia.
  assert (L : (2 * (Z.pos m * 10 ^ 8) <? 2 ^ (- e))%Z = true)
    by now apply Z.ltb_lt.
  rewrite L. destruct neg; reflexivity.
Qed.

Lemma tiny_float_literal_is_zero_witness :
  toString (VFloat64 (S754_finite true 1 (-30))) = "-0.00000000".
Proof.
  apply (tiny_float_literal_is_zero true 1 (-30)); reflexivity.
Defined.

Lemma insert_statement_witness :
  Build (ReturnID "id"
          (Values (DataMap [("a", VInt 1); ("b", VString "x")])
            (Insert "t" fresh_builder))) =
    Build (Limit 5 0 (Where [("id", VInt 1)]
          (ReturnID "id"
            (Values (DataMap [("a", VInt 1); ("b", VString "x")])
              (Insert "t" (From "other" fresh_builder)))))).
Proof.
  apply (proj2 (proj2 (insert_statement
    (parts_ (Limit 5 0 (Where [("id", VInt 1)]
          (ReturnID "id"
            (Values (DataMap [("a", VInt 1); ("b", VString "x")])
              (Insert "t" (From "other" fresh_builder)))))))
    (sources (Limit 5 0 (Where [("id", VInt 1)]
          (ReturnID "id"
            (Values (DataMap [("a", VInt 1); ("b", VString "x")])
              (Insert "t" (From "other" fresh_builder))))))))));
    reflexivity.
Defined.

(** ** The primary key of a model *)

Lemma getKeyByModel_no_key (st : list Repository.StructField) : forall key,
  forallb (fun f => negb (Repository.is_key f)) st = true ->
  fold_left
    (fun key field =>
       if negb (String.eqb (Repository.Tag field "key") "")
       then (let key := Repository.Name field in
             if negb (String.eqb (Repository.Tag field "db") "")
             then Repository.Tag field "db" else key)
       else key) st key = key.
Proof.
  induction st as [|f st IH]; intros key H; [reflexivity|].
  cbn [forallb] in H. apply andb_true_iff in H as [Hf Hst].
  cbn [fold_left]. unfold Repository.is_key in Hf.
  apply negb_true_iff in Hf. rewrite Hf. now apply IH.
Qed.

(** [getKeyByModel] answers with the column of the last field that carries
    a [key] tag (its [db] tag, or its name without one), whatever fields
    come before it, and with the empty string for a model none of whose
    fields carries the tag. *)
Theorem key_is_last_tagged_field
    (before rest : list Repository.StructField) (f : Repository.StructField) :
  forallb (fun g => negb (Repository.is_key g)) rest = true ->
  (Repository.is_key f = true ->
   Repository.getKeyByModel (before ++ f :: rest)%list = Repository.column_of f) /\
  Repository.getKeyByModel rest = "".
Proof.
  intros Hrest. split.
  - intros Hf. unfold Repository.getKeyByModel.
    rewrite fold_left_app. cbn [fold_left].
    rewrite getKeyByModel_no_key by assumption.
    unfold Repository.is_key in Hf. rewrite Hf. reflexivity.
  - unfold Repository.getKeyByModel. now apply getKeyByModel_no_key.
Qed.

Lemma key_is_last_tagged_field_witness :
  Repository.getKeyByModel
    [Repository.mkStructField "ID"
       (fun t => if String.eqb t "key" then "true" else "");
     Repository.mkStructField "Code"
       (fun t => if String.eqb t "key" then "true"
                 else if String.eqb t "db" then "code" else "");
     Repository.mkStructField "Name"
       (fun t => if String.eqb t "db" then "name" else "")] = "code".
Proof.
  apply (proj1 (key_is_last_tagged_field
    [Repository.mkStructField "ID"
       (fun t => if String.eqb t "key" then "true" else "")]
    [Repository.mkStructField "Name"
       (fun t => if String.eqb t "db" then "name" else "")]
    (Repository.mkStructField "Code"
       (fun t => if String.eqb t "key" then "true"
                 else if String.eqb t "db" then "code" else ""))
    eq_refl)).
  reflexivity.
Defined.
